(** * Vector quantizers of enhancing/modules/stage1/quantizers.py

    A shallow embedding of [BaseQuantizer], [VectorQuantizer] and
    [GumbelQuantizer].

    Tensors are contiguous: a shape and the flat, row-major list of the
    elements, so that [view] only changes the shape.  The element type is an
    interface ([Scalar]) with two instances: IEEE-754 binary32, which is the
    arithmetic of a [torch.FloatTensor], and the real numbers, the exact
    arithmetic the rounded one approximates.  [detach] is the identity on
    values and is not written.  Reductions ([torch.sum], [torch.mean],
    [einsum]) add from left to right, starting from zero. *)

From Stdlib Require Import ZArith Reals Lra Lia.
From Stdlib Require Import Floats.SpecFloat.
From stdpp Require Import base option list gmap strings.

Set Default Proof Using "Type".

(** ** Scalars *)

Class Scalar (T : Type) := {
  s_zero : T;
  s_two : T;
  s_eps : T;                (* 1e-12, the default [eps] of [F.normalize] *)
  s_of_nat : nat -> T;      (* the element count [torch.mean] divides by *)
  s_neg : T -> T;
  s_add : T -> T -> T;
  s_sub : T -> T -> T;
  s_mul : T -> T -> T;
  s_div : T -> T -> T;
  s_sqrt : T -> T;
  s_lt : T -> T -> bool;
  s_isnan : T -> bool
}.

(** ** Tensors and the tensor operations the module calls *)

Section Tensors.
Context {T : Type} `{Scalar T}.

(** A 3-D tensor of shape [(nb, nt, nc)]. *)
Record Tensor := mkTensor { nb : nat; nt : nat; nc : nat; data : list T }.

(** An integer tensor ([torch.LongTensor]) of any rank. *)
Record IndexTensor := mkIndex { ishape : list nat; idata : list nat }.

Definition numel (x : Tensor) : nat := nb x * nt x * nc x.

Definition wf_tensor (x : Tensor) : Prop := length (data x) = numel x.

Definition same_shape (x y : Tensor) : Prop :=
  nb x = nb y /\ nt x = nt y /\ nc x = nc y.

(** The rows of length [d] of a flat list: [x.view(-1, d)]. *)
Definition rows (d : nat) (l : list T) : list (list T) :=
  reshape (replicate (length l / d) d) l.

(** The vector at position [(i, j)] of a 3-D tensor. *)
Definition vec_at (x : Tensor) (i j : nat) : list T :=
  take (nc x) (drop ((i * nt x + j) * nc x) (data x)).

(** The entry at position [(i, j)] of a 2-D index tensor with [t] columns. *)
Definition index_at (t : nat) (ix : IndexTensor) (i j : nat) : option nat :=
  idata ix !! (i * t + j).

(** [torch.sum] of the elements, added in index order.  The order in
    which the kernels of the library add is not fixed by the source; in
    exact arithmetic every order gives this sum, in binary32 another
    order can round differently. *)
Definition tsum (l : list T) : T := fold_left s_add l s_zero.

Definition tmean (l : list T) : T := s_div (tsum l) (s_of_nat (length l)).

Definition sq (x : T) : T := s_mul x x.

(** [torch.sum(x ** 2, dim=1)] of one row. *)
Definition sumsq (r : list T) : T := tsum (map sq r).

(** One entry of [einsum('b d, n d -> b n', x, y)]. *)
Definition dot (r e : list T) : T := tsum (zip_with s_mul r e).

Definition clamp_min (x lo : T) : T := if s_lt x lo then lo else x.

(** [F.normalize(x, dim=-1)] on one row: [x / max(||x||_2, eps)]. *)
Definition normalize (r : list T) : list T :=
  let den := clamp_min (s_sqrt (sumsq r)) s_eps in
  map (fun x => s_div x den) r.

(** The order of [torch.argmin]: a NaN is below every number. *)
Definition less (a b : T) : bool :=
  if s_isnan a then negb (s_isnan b) else s_lt a b.

(** What makes [less] an order to take a minimum in: a strict weak
    order. *)
Record less_order : Prop := {
  less_irrefl : forall a, less a a = false;
  less_trans : forall a b c,
    less a b = true -> less b c = true -> less a c = true;
  less_incomparable : forall a b c,
    less a b = false -> less b c = false -> less a c = false
}.

(** [torch.argmin] on one row; of several minimal values the first. *)
Fixpoint argmin_from (best : T) (bi i : nat) (l : list T) : nat :=
  match l with
  | [] => bi
  | x :: l' =>
      if less x best then argmin_from x i (S i) l'
      else argmin_from best bi (S i) l'
  end.

Definition argmin (l : list T) : nat :=
  match l with
  | [] => 0
  | x :: l' => argmin_from x 0 1 l'
  end.

(** The order of [torch.argmax]: a NaN is above every number. *)
Definition more (a b : T) : bool :=
  if s_isnan a then negb (s_isnan b) else s_lt b a.

(** [soft_one_hot.argmax(dim=2)] on one row. *)
Fixpoint argmax_from (best : T) (bi i : nat) (l : list T) : nat :=
  match l with
  | [] => bi
  | x :: l' =>
      if more x best then argmax_from x i (S i) l'
      else argmax_from best bi (S i) l'
  end.

Definition argmax (l : list T) : nat :=
  match l with
  | [] => 0
  | x :: l' => argmax_from x 0 1 l'
  end.

Definition tzeros_like (x : Tensor) : Tensor :=
  mkTensor (nb x) (nt x) (nc x) (replicate (length (data x)) s_zero).

(** Elementwise operations on tensors of one shape. *)
Definition tadd (x y : Tensor) : Tensor :=
  mkTensor (nb x) (nt x) (nc x) (zip_with s_add (data x) (data y)).

Definition tsub (x y : Tensor) : Tensor :=
  mkTensor (nb x) (nt x) (nc x) (zip_with s_sub (data x) (data y)).

(** [torch.stack(xs, dim=-1)] on index tensors of one shape: entry [p] of
    the result's flat data holds, for each tensor in turn, its entry [p]. *)
Definition stack_last (xs : list (list nat)) (n : nat) : list nat :=
  mjoin (map (fun p => omap (fun x => x !! p) xs) (seq 0 n)).

End Tensors.

Arguments Tensor T : clear implicits.

(** ** The quantizers *)

Section Quantizers.
Context {T : Type} `{Scalar T}.

(** The attributes of a quantizer object that [quantize] and [forward]
    read.  [weight] is [embedding.weight], one list per codebook row;
    [num_quantizers] is an [Optional[int]]. *)
Record Quantizer := mkQuantizer {
  straight_through : bool;
  use_norm : bool;
  n_embed : nat;
  embed_dim : nat;
  beta : T;
  use_residual : bool;
  num_quantizers : option Z;
  weight : list (list T)
}.

(** What [nn.Embedding(n_embed, embed_dim)] guarantees of its weight. *)
Definition wf_quantizer (q : Quantizer) : Prop :=
  length (weight q) = n_embed q /\
  Forall (fun r => length r = embed_dim q) (weight q).

(** An input of shape [(b, t, embed_dim)]. *)
Definition fits (q : Quantizer) (z : Tensor T) : Prop :=
  wf_tensor z /\ nc z = embed_dim q.

(** [self.norm = lambda x: F.normalize(x, dim=-1) if use_norm else x],
    on one vector of the last dimension. *)
Definition norm (q : Quantizer) (r : list T) : list T :=
  if use_norm q then normalize r else r.

(** [self.norm] on a flat tensor whose last dimension is [c]. *)
Definition norm_last (q : Quantizer) (c : nat) (l : list T) : list T :=
  mjoin (map (norm q) (rows c l)).

(** One row of [d]: the entries
    [sum(z ** 2) + sum(e_n ** 2) - 2 * einsum(z, e_n)]. *)
Definition distances (en : list (list T)) (r : list T) : list T :=
  map (fun e => s_sub (s_add (sumsq r) (sumsq e)) (s_mul s_two (dot r e))) en.

(** [self.embedding(encoding_indices)]: the rows of the weight. *)
Definition embedding (q : Quantizer) (ix : list nat) : list (list T) :=
  map (fun i => default [] (weight q !! i)) ix.

(** The squared Euclidean distance of two vectors. *)
Definition sqdist (r e : list T) : T := sumsq (zip_with s_sub r e).

(** The loss of [VectorQuantizer.quantize]. *)
Definition vq_loss (q : Quantizer) (zqn zn : list T) : T :=
  s_add (tmean (map sq (zip_with s_sub zqn zn)))
        (s_mul (beta q) (tmean (map sq (zip_with s_sub zqn zn)))).

(** [VectorQuantizer.quantize].  [None] is a raised exception: a [view]
    whose shape does not fit the number of elements, or [argmin] over an
    empty dimension. *)
Definition quantize (q : Quantizer) (z : Tensor T)
  : option (Tensor T * T * IndexTensor) :=
  let D := embed_dim q in
  let n := length (data z) in
  (* z.view(-1, self.embed_dim) *)
  if bool_decide (D = 0 \/ n `mod` D <> 0) then None else
  let z_reshaped_norm := map (norm q) (rows D (data z)) in
  let embedding_norm := map (norm q) (weight q) in
  let d := map (distances embedding_norm) z_reshaped_norm in
  (* torch.argmin(d, dim=1) *)
  if bool_decide (length embedding_norm = 0) then None else
  let encoding_indices := map argmin d in
  (* encoding_indices.view of shape z.shape[:2] *)
  if bool_decide (length encoding_indices <> nb z * nt z) then None else
  (* self.embedding(encoding_indices).view(z.shape) *)
  let z_q := mjoin (embedding q encoding_indices) in
  if bool_decide (length z_q <> numel z) then None else
  let z_qnorm := norm_last q (nc z) z_q in
  let z_norm := norm_last q (nc z) (data z) in
  Some (mkTensor (nb z) (nt z) (nc z) z_qnorm,
        vq_loss q z_qnorm z_norm,
        mkIndex [nb z; nt z] encoding_indices).

(** The index tensor [quantize] computes, before it is viewed. *)
Definition indices_of (q : Quantizer) (z : Tensor T) : list nat :=
  map argmin
    (map (distances (map (norm q) (weight q)))
       (map (norm q) (rows (embed_dim q) (data z)))).

(** The loop of the residual branch of [forward].  The state is
    [(residual, z_q, losses, encoding_indices)]; [sub_] and [add_] update
    [residual] and [z_q], and [quantize] receives the values of
    [residual.clone()]. *)
Fixpoint residual_loop (q : Quantizer) (k : nat) (residual z_q : Tensor T)
    (losses : list T) (encoding_indices : list IndexTensor)
  : option (Tensor T * Tensor T * list T * list IndexTensor) :=
  match k with
  | 0 => Some (residual, z_q, losses, encoding_indices)
  | S k' =>
      match quantize q residual with
      | None => None
      | Some (z_qi, loss, indices) =>
          residual_loop q k' (tsub residual z_qi) (tadd z_q z_qi)
            (losses ++ [loss]) (encoding_indices ++ [indices])
      end
  end.

(** [torch.stack(encoding_indices, dim=-1)] for index tensors of shape
    [(b, t)]; an empty list of tensors raises. *)
Definition stack_indices (b t : nat) (xs : list IndexTensor) : IndexTensor :=
  mkIndex [b; t; length xs] (stack_last (map idata xs) (b * t)).

(** The branches of [forward] before the straight-through line. *)
Definition forward_branches (q : Quantizer) (z : Tensor T)
  : option (Tensor T * T * IndexTensor) :=
  if negb (use_residual q) then quantize q z
  else
    match num_quantizers q with
    | None => None                      (* range(None) *)
    | Some k =>
        match residual_loop q (Z.to_nat k) z (tzeros_like z) [] [] with
        | None => None
        | Some (_, z_q, losses, encoding_indices) =>
            match losses with
            | [] => None                (* torch.stack of an empty list *)
            | _ => Some (z_q, tmean losses,
                         stack_indices (nb z) (nt z) encoding_indices)
            end
        end
    end.

(** The straight-through line [z_q = z + (z_q - z).detach()]. *)
Definition straight_through_estimator (z z_q : Tensor T) : Tensor T :=
  tadd z (tsub z_q z).

(** [BaseQuantizer.forward]. *)
Definition forward (q : Quantizer) (z : Tensor T)
  : option (Tensor T * T * IndexTensor) :=
  match forward_branches q z with
  | None => None
  | Some (z_q, loss, encoding_indices) =>
      let z_q :=
        if straight_through q then straight_through_estimator z z_q
        else z_q in
      Some (z_q, loss, encoding_indices)
  end.

(** The stages of residual quantization, as the specification words them:
    [r_0 = z], stage [k] quantizes [r_(k-1)], and [r_k = r_(k-1) - q_k].
    [stage q z k] is stage [k + 1]. *)
Fixpoint residual_after (q : Quantizer) (z : Tensor T) (k : nat)
  : option (Tensor T) :=
  match k with
  | 0 => Some z
  | S k' =>
      match residual_after q z k' with
      | None => None
      | Some r =>
          match quantize q r with
          | None => None
          | Some (q_k, _, _) => Some (tsub r q_k)
          end
      end
  end.

Definition stage (q : Quantizer) (z : Tensor T) (k : nat)
  : option (Tensor T * T * IndexTensor) :=
  match residual_after q z k with
  | None => None
  | Some r => quantize q r
  end.

(** The sum [q_1 + ... + q_K], accumulated from the zero tensor. *)
Definition sum_stages (z : Tensor T) (qs : list (Tensor T)) : Tensor T :=
  fold_left tadd qs (tzeros_like z).

(** The values of the quantized tensor of a result. *)
Definition quantized (r : option (Tensor T * T * IndexTensor))
  : option (list T) :=
  match r with
  | None => None
  | Some (z_q, _, _) => Some (data z_q)
  end.

(** The same quantizer with another [straight_through]. *)
Definition set_straight_through (b : bool) (q : Quantizer) : Quantizer :=
  mkQuantizer b (use_norm q) (n_embed q) (embed_dim q) (beta q)
    (use_residual q) (num_quantizers q) (weight q).

End Quantizers.

Arguments Quantizer T : clear implicits.

(** ** [GumbelQuantizer.quantize] *)

Section Gumbel.
Context {T : Type} `{Scalar T}.

(** PyTorch functions this method calls, on the rows of the last
    dimension: [F.gumbel_softmax(logits, tau, dim=2, hard)] with the noise
    it draws, [F.softmax(logits, dim=2)], [torch.log], and the constant
    [1e-10]. *)
Variable gumbel_softmax : T -> bool -> list (list T) -> list (list T).
Variable softmax : list T -> list T.
Variable log : T -> T.
Variable c_1e_10 : T.

(** [F.gumbel_softmax] returns a tensor of the shape of its argument. *)
Definition keeps_shape : Prop :=
  forall tau hard ls,
    Forall2 (fun r r' : list T => length r' = length r) ls
      (gumbel_softmax tau hard ls).

(** The columns of a matrix with [d] columns. *)
Definition columns (d : nat) (m : list (list T)) : list (list T) :=
  map (fun k => map (fun r => default s_zero (r !! k)) m) (seq 0 d).

(** One row of [logits]:
    [- sum(z ** 2) - sum(e_n ** 2) + 2 * einsum(z, e_n)]. *)
Definition logits_row (en : list (list T)) (r : list T) : list T :=
  map (fun e => s_add (s_sub (s_neg (sumsq r)) (sumsq e))
                      (s_mul s_two (dot r e))) en.

(** A dimension of size [n] seen as one of size [k], as [torch.einsum]
    broadcasts it: itself when the sizes agree, and its one element
    repeated [k] times when [n] is 1. *)
Definition expand {A : Type} (d : A) (n k : nat) (l : list A) : list A :=
  if bool_decide (n = k) then l else replicate k (default d (l !! 0)).

(** The summand of the KL term for one row. *)
Definition kl_row (n_embed : nat) (qy : list T) : T :=
  tsum (map (fun p => s_mul p (log (s_add (s_mul p (s_of_nat n_embed))
                                        c_1e_10))) qy).

(** [GumbelQuantizer.quantize]; [training], [temperature] and [kl_weight]
    are the attributes of the object the method reads besides those of
    [Quantizer]. *)
Definition gumbel_quantize (q : Quantizer T) (training : bool)
    (temperature kl_weight : T) (temp : option T) (z : Tensor T)
  : option (Tensor T * T * IndexTensor) :=
  let hard := negb training in
  let temp := default temperature temp in
  let D := embed_dim q in
  let n := length (data z) in
  (* z.view(-1, self.embed_dim) *)
  if bool_decide (D = 0 \/ n `mod` D <> 0) then None else
  let z_reshaped_norm := map (norm q) (rows D (data z)) in
  let embedding_norm := map (norm q) (weight q) in
  let logits := mjoin (map (logits_row embedding_norm) z_reshaped_norm) in
  (* logits.view of shape z.shape[:2] and -1 *)
  let bt := nb z * nt z in
  if bool_decide (bt = 0 \/ length logits `mod` bt <> 0) then None else
  let N := length logits / bt in
  let logits := rows N logits in
  let soft_one_hot := gumbel_softmax temp hard logits in
  (* einsum('b t n, n d -> b t d', soft_one_hot, embedding_norm): the two
     sizes of n are equal, or one of them is 1 and is broadcast *)
  let Ne := length embedding_norm in
  if bool_decide (N <> Ne /\ N <> 1 /\ Ne <> 1) then None else
  let K := if bool_decide (N = 1) then Ne else N in
  let z_qnorm :=
    mjoin (map (fun r => map (dot (expand s_zero N K r))
                           (columns D (expand [] Ne K embedding_norm)))
               soft_one_hot) in
  let qy := map softmax logits in
  let loss := s_mul kl_weight (tmean (map (kl_row (n_embed q)) qy)) in
  (* soft_one_hot.argmax(dim=2) *)
  if bool_decide (N = 0) then None else
  let encoding_indices := map argmax soft_one_hot in
  Some (mkTensor (nb z) (nt z) D z_qnorm, loss,
        mkIndex [nb z; nt z] encoding_indices).

End Gumbel.

(** ** Tensors as objects: storages, views and in-place updates *)

(** A storage is named by a location; a tensor object is a view of a
    storage.  [view] and [detach] return a tensor on the same storage,
    [clone], [zeros_like] and every operator allocate a new one. *)
Abbreviation loc := nat (only parsing).
Abbreviation store T := (gmap loc (list T)) (only parsing).

Section Heap.
Context {T : Type} `{Scalar T}.

Record TensorRef := mkRef {
  ref_loc : loc; ref_nb : nat; ref_nt : nat; ref_nc : nat
}.

(** Computations on the store; [None] is a raised exception. *)
Definition M (A : Type) : Type := store T -> option A * store T.

Definition ret {A : Type} (a : A) : M A := fun s => (Some a, s).

Definition raise {A : Type} : M A := fun s => (None, s).

Definition bind {A B : Type} (m : M A) (f : A -> M B) : M B :=
  fun s =>
    match m s with
    | (Some a, s') => f a s'
    | (None, s') => (None, s')
    end.

Definition alloc (v : list T) : M loc :=
  fun s => let l := fresh (dom s) in (Some l, <[l := v]> s).

Definition load (l : loc) : M (list T) := fun s => (s !! l, s).

Definition update (l : loc) (v : list T) : M unit :=
  fun s => (Some tt, <[l := v]> s).

Definition like (x : TensorRef) (l : loc) : TensorRef :=
  mkRef l (ref_nb x) (ref_nt x) (ref_nc x).

Definition value_of (x : TensorRef) (v : list T) : Tensor T :=
  mkTensor (ref_nb x) (ref_nt x) (ref_nc x) v.

(** [x.detach()]: the same storage. *)
Definition detach (x : TensorRef) : TensorRef := x.

(** [x.clone()]. *)
Definition clone (x : TensorRef) : M TensorRef :=
  bind (load (ref_loc x)) (fun v =>
  bind (alloc v) (fun l => ret (like x l))).

(** [torch.zeros_like(x)]. *)
Definition zeros_like (x : TensorRef) : M TensorRef :=
  bind (load (ref_loc x)) (fun v =>
  bind (alloc (replicate (length v) s_zero)) (fun l => ret (like x l))).

(** [x.sub_(y)] and [x.add_(y)]: the storage of [x] is overwritten. *)
Definition sub_ (x y : TensorRef) : M unit :=
  bind (load (ref_loc x)) (fun vx =>
  bind (load (ref_loc y)) (fun vy =>
  update (ref_loc x) (zip_with s_sub vx vy))).

Definition add_ (x y : TensorRef) : M unit :=
  bind (load (ref_loc x)) (fun vx =>
  bind (load (ref_loc y)) (fun vy =>
  update (ref_loc x) (zip_with s_add vx vy))).

(** [x - y] and [x + y]: a new tensor. *)
Definition sub_new (x y : TensorRef) : M TensorRef :=
  bind (load (ref_loc x)) (fun vx =>
  bind (load (ref_loc y)) (fun vy =>
  bind (alloc (zip_with s_sub vx vy)) (fun l => ret (like x l)))).

Definition add_new (x y : TensorRef) : M TensorRef :=
  bind (load (ref_loc x)) (fun vx =>
  bind (load (ref_loc y)) (fun vy =>
  bind (alloc (zip_with s_add vx vy)) (fun l => ret (like x l)))).

(** The quantizer object: its attributes, and the location of the storage
    of [embedding.weight], of shape [(n_embed, embed_dim)]. *)
Definition with_weight (q : Quantizer T) (w : list (list T)) : Quantizer T :=
  mkQuantizer (straight_through q) (use_norm q) (n_embed q) (embed_dim q)
    (beta q) (use_residual q) (num_quantizers q) w.

(** [VectorQuantizer.quantize] on objects.  It reads its argument and the
    weight and updates neither; the tensor it returns is new ([F.embedding]
    and [F.normalize] allocate their results). *)
Definition quantize_obj (q : Quantizer T) (lw : loc) (z : TensorRef)
  : M (TensorRef * T * IndexTensor) :=
  bind (load (ref_loc z)) (fun zv =>
  bind (load lw) (fun wv =>
  match quantize (with_weight q (rows (embed_dim q) wv)) (value_of z zv) with
  | None => raise
  | Some (z_q, loss, ix) =>
      bind (alloc (data z_q)) (fun l => ret (like z l, loss, ix))
  end)).

Fixpoint residual_loop_obj (q : Quantizer T) (lw : loc) (k : nat)
    (residual z_q : TensorRef) (losses : list T)
    (encoding_indices : list IndexTensor)
  : M (list T * list IndexTensor) :=
  match k with
  | 0 => ret (losses, encoding_indices)
  | S k' =>
      bind (clone residual) (fun c =>
      bind (quantize_obj q lw c) (fun '(z_qi, loss, indices) =>
      bind (sub_ residual z_qi) (fun _ =>
      bind (add_ z_q z_qi) (fun _ =>
      residual_loop_obj q lw k' residual z_q
        (losses ++ [loss]) (encoding_indices ++ [indices])))))
  end.

Definition forward_branches_obj (q : Quantizer T) (lw : loc) (z : TensorRef)
  : M (TensorRef * T * IndexTensor) :=
  if negb (use_residual q) then quantize_obj q lw z
  else
    bind (zeros_like z) (fun z_q =>
    bind (clone (detach z)) (fun residual =>
    match num_quantizers q with
    | None => raise
    | Some k =>
        bind (residual_loop_obj q lw (Z.to_nat k) residual z_q [] [])
          (fun '(losses, encoding_indices) =>
        match losses with
        | [] => raise
        | _ => ret (z_q, tmean losses,
                    stack_indices (ref_nb z) (ref_nt z) encoding_indices)
        end)
    end)).

(** [BaseQuantizer.forward] on objects. *)
Definition forward_obj (q : Quantizer T) (lw : loc) (z : TensorRef)
  : M (TensorRef * T * IndexTensor) :=
  bind (forward_branches_obj q lw z) (fun '(z_q, loss, encoding_indices) =>
  if straight_through q then
    bind (sub_new z_q (detach z)) (fun t =>
    bind (add_new z (detach t)) (fun z_q' =>
    ret (z_q', loss, encoding_indices)))
  else ret (z_q, loss, encoding_indices)).

(** The value of a tensor object in a store. *)
Definition tensor_value (s : store T) (x : TensorRef) : option (Tensor T) :=
  match s !! ref_loc x with
  | None => None
  | Some v => Some (value_of x v)
  end.

(** A computation keeps what a store [s0] holds, and its result
    satisfies [P]. *)
Definition frames {A : Type} (s0 : store T) (m : M A) (P : A -> Prop) : Prop :=
  forall s, s0 ⊆ s ->
    s0 ⊆ (m s).2 /\ forall a, (m s).1 = Some a -> P a.

(** A tensor object on a storage that [s0] does not hold. *)
Definition new_in (s0 : store T) (x : TensorRef) : Prop :=
  s0 !! ref_loc x = None.

End Heap.

(** ** The constructors

    The [__init__] methods, as computations on the attribute dictionary of
    the object under construction.  A name is looked up among the
    parameters of the method, then among the names the module binds, then
    among the builtins; a name bound nowhere raises [NameError].  Keyword
    arguments the signature does not name are collected in the dictionary
    [kwargs] and bind no name. *)

Module Py.

Inductive pyval :=
| PyNone
| PyBool (b : bool)
| PyInt (n : Z)
| PyFloat (m e : Z)                       (* the literal m * 10^e *)
| PyObject (cls : string).

Inductive pyexn :=
| NameError (name : string)
| AttributeError (attr : string)
| TypeError
| RuntimeError
| ZeroDivisionError.

Definition attrs : Type := gmap string pyval.

Definition Init (A : Type) : Type := attrs -> pyexn + A * attrs.

Definition ret {A : Type} (a : A) : Init A := fun s => inr (a, s).

Definition raise {A : Type} (e : pyexn) : Init A := fun _ => inl e.

Definition bind {A B : Type} (m : Init A) (f : A -> Init B) : Init B :=
  fun s => match m s with inl e => inl e | inr (a, s') => f a s' end.

(** The names bound at module level: the imports of lines 10 to 17 and
    the three classes. *)
Definition module_globals : list string :=
  ["partial"; "Tuple"; "Optional"; "torch"; "nn"; "F";
   "get_obj_from_str"; "initialize_from_config";
   "BaseQuantizer"; "VectorQuantizer"; "GumbelQuantizer"]%string.

(** The builtins the module uses. *)
Definition builtins : list string :=
  ["super"; "range"; "map"; "bool"; "int"; "float"]%string.

Definition name (locals : gmap string pyval) (x : string) : Init pyval :=
  fun s =>
    match locals !! x with
    | Some v => inr (v, s)
    | None =>
        if bool_decide (x ∈ module_globals ++ builtins)
        then inr (PyObject x, s)
        else inl (NameError x)
    end.

(** [self.a] and [self.a = v]. *)
Definition getattr (a : string) : Init pyval :=
  fun s =>
    match s !! a with
    | Some v => inr (v, s)
    | None => inl (AttributeError a)
    end.

Definition setattr (a : string) (v : pyval) : Init unit :=
  fun s => inr (tt, <[a := v]> s).

(** [self.a = x] for a name [x]. *)
Definition assign (locals : gmap string pyval) (a x : string) : Init unit :=
  bind (name locals x) (setattr a).

(** [nn.Module.__init__(self)]: the attributes every module carries.
    [training] is the one this file reads (line 115); the tables of
    parameters, buffers and submodules stand for the private state of the
    module, whose further tables (of hooks) differ between versions of the
    library and are left out. *)
Definition nn_Module_init : Init unit :=
  bind (setattr "training" (PyBool true)) (fun _ =>
  bind (setattr "_parameters" (PyObject "OrderedDict")) (fun _ =>
  bind (setattr "_buffers" (PyObject "OrderedDict")) (fun _ =>
  setattr "_modules" (PyObject "OrderedDict")))).

(** [BaseQuantizer.__init__(self, straight_through=True, use_norm=True)]. *)
Definition BaseQuantizer_init (straight_through use_norm : pyval)
  : Init unit :=
  let locals : gmap string pyval :=
    list_to_map [("straight_through", straight_through);
                 ("use_norm", use_norm)]%string in
  (* super().__init__() *)
  bind (name locals "super") (fun _ =>
  bind nn_Module_init (fun _ =>
  bind (assign locals "straight_through" "straight_through") (fun _ =>
  setattr "norm" (PyObject "function")))).

(** A Python [bool] is an [int]: [True] is 1 and [False] is 0. *)
Definition as_int (v : pyval) : option Z :=
  match v with
  | PyInt n => Some n
  | PyBool b => Some (if b then 1 else 0)%Z
  | _ => None
  end.

(** [nn.Embedding(self.n_embed, self.embed_dim)]: the sizes are integers
    and not negative.  (A size too large for the memory of the machine
    raises as well; the model has no such limit.) *)
Definition nn_Embedding (n d : pyval) : Init pyval :=
  match as_int n, as_int d with
  | Some n, Some d =>
      if bool_decide (n < 0 \/ d < 0)%Z then raise RuntimeError
      else ret (PyObject "Embedding")
  | _, _ => raise TypeError
  end.

(** [-1.0 / self.n_embed] and [1.0 / self.n_embed]. *)
Definition float_div_by (n : pyval) : Init pyval :=
  match n with
  | PyFloat m _ =>
      if bool_decide (m = 0)%Z then raise ZeroDivisionError
      else ret (PyObject "float")
  | _ =>
      match as_int n with
      | Some n =>
          if bool_decide (n = 0)%Z then raise ZeroDivisionError
          else ret (PyObject "float")
      | None => raise TypeError
      end
  end.

(** The last two lines of both constructors. *)
Definition make_embedding (locals : gmap string pyval) : Init unit :=
  bind (name locals "nn") (fun _ =>
  bind (getattr "n_embed") (fun n =>
  bind (getattr "embed_dim") (fun d =>
  bind (nn_Embedding n d) (fun e =>
  bind (setattr "embedding" e) (fun _ =>
  bind (getattr "embedding") (fun _ =>
  bind (getattr "n_embed") (fun n1 =>
  bind (float_div_by n1) (fun _ =>
  bind (getattr "n_embed") (fun n2 =>
  bind (float_div_by n2) (fun _ =>
  ret tt)))))))))).

(** [VectorQuantizer.__init__]. *)
Definition VectorQuantizer_init
    (embed_dim n_embed beta use_norm use_residual num_quantizers : pyval)
    (kwargs : list (string * pyval)) : Init unit :=
  let locals : gmap string pyval :=
    list_to_map [("embed_dim", embed_dim); ("n_embed", n_embed);
                 ("beta", beta); ("use_norm", use_norm);
                 ("use_residual", use_residual);
                 ("num_quantizers", num_quantizers);
                 ("kwargs", PyObject "dict")]%string in
  (* super().__init__(use_norm=use_norm) *)
  bind (name locals "super") (fun _ =>
  bind (name locals "use_norm") (fun un =>
  bind (BaseQuantizer_init (PyBool true) un) (fun _ =>
  bind (assign locals "n_embed" "n_embed") (fun _ =>
  bind (assign locals "embed_dim" "embed_dim") (fun _ =>
  bind (assign locals "beta" "beta") (fun _ =>
  bind (assign locals "use_residual" "use_residual") (fun _ =>
  bind (assign locals "num_quantizers" "num_quantizers") (fun _ =>
  make_embedding locals)))))))).

(** [GumbelQuantizer.__init__]. *)
Definition GumbelQuantizer_init
    (embed_dim n_embed temp_init kl_weight use_norm use_residual
       num_quantizers : pyval)
    (kwargs : list (string * pyval)) : Init unit :=
  let locals : gmap string pyval :=
    list_to_map [("embed_dim", embed_dim); ("n_embed", n_embed);
                 ("temp_init", temp_init); ("kl_weight", kl_weight);
                 ("use_norm", use_norm); ("use_residual", use_residual);
                 ("num_quantizers", num_quantizers);
                 ("kwargs", PyObject "dict")]%string in
  (* super().__init__(False, use_norm) *)
  bind (name locals "super") (fun _ =>
  bind (name locals "use_norm") (fun un =>
  bind (BaseQuantizer_init (PyBool false) un) (fun _ =>
  bind (assign locals "embed_dim" "embed_dim") (fun _ =>
  bind (assign locals "n_embed" "n_embed") (fun _ =>
  bind (assign locals "straight_through" "straight_through") (fun _ =>
  bind (assign locals "temperature" "temp_init") (fun _ =>
  bind (assign locals "kl_weight" "kl_weight") (fun _ =>
  (* nn.Linear(embed_dim, n_embed, 1) *)
  bind (name locals "nn") (fun _ =>
  bind (name locals "embed_dim") (fun _ =>
  bind (name locals "n_embed") (fun _ =>
  bind (setattr "proj" (PyObject "Linear")) (fun _ =>
  bind (assign locals "use_residual" "use_residual") (fun _ =>
  bind (assign locals "num_quantizers" "num_quantizers") (fun _ =>
  make_embedding locals)))))))))))))).

(** A constructor call: [__init__] on a new object, whose attributes are
    the result; an exception leaves no object. *)
Definition construct (init : Init unit) : pyexn + attrs :=
  match init ∅ with
  | inl e => inl e
  | inr (_, s) => inr s
  end.

End Py.

(** ** The two arithmetics *)

(** IEEE-754 binary32, round to nearest even: 24 bits of precision and
    exponents below 128. *)
Definition f32 : Type := spec_float.

Definition f32_of_Z (z : Z) : f32 := binary_normalize 24 128 z 0 false.

Definition f32_isnan (x : f32) : bool :=
  match x with S754_nan => true | _ => false end.

(** The binary32 number nearest to 1e-12 is 9223372 * 2^-63. *)
Definition f32_eps : f32 := S754_finite false 9223372 (-63).

#[export] Instance f32_scalar : Scalar f32 := {|
  s_zero := S754_zero false;
  s_two := f32_of_Z 2;
  s_eps := f32_eps;
  s_of_nat := fun n => f32_of_Z (Z.of_nat n);
  s_neg := SFopp;
  s_add := SFadd 24 128;
  s_sub := SFsub 24 128;
  s_mul := SFmul 24 128;
  s_div := SFdiv 24 128;
  s_sqrt := SFsqrt 24 128;
  s_lt := SFltb;
  s_isnan := f32_isnan
|}.

Definition Rltb (a b : R) : bool := if Rlt_dec a b then true else false.

#[export] Instance R_scalar : Scalar R := {|
  s_zero := 0%R;
  s_two := 2%R;
  s_eps := (/ 10 ^ 12)%R;
  s_of_nat := INR;
  s_neg := Ropp;
  s_add := Rplus;
  s_sub := Rminus;
  s_mul := Rmult;
  s_div := Rdiv;
  s_sqrt := sqrt;
  s_lt := Rltb;
  s_isnan := fun _ => false
|}.

(** The real number a binary32 value stands for. *)
Definition f32_value (x : f32) : R :=
  match x with
  | S754_finite s m e =>
      if s then (- (IZR (Zpos m) * powerRZ 2 e))%R
      else (IZR (Zpos m) * powerRZ 2 e)%R
  | _ => 0%R
  end.

(** The place of a binary32 value in the order of [torch.argmin]: NaN first,
    then the numbers in increasing order, both zeros at one place. *)
Definition f32_key (x : f32) : Z * Z * Z :=
  match x with
  | S754_nan => (-3, 0, 0)
  | S754_infinity true => (-2, 0, 0)
  | S754_finite true m e => (-1, - e, - Zpos m)
  | S754_zero _ => (0, 0, 0)
  | S754_finite false m e => (1, e, Zpos m)
  | S754_infinity false => (2, 0, 0)
  end%Z.

Definition lex_lt (a b : Z * Z * Z) : Prop :=
  (a.1.1 < b.1.1 \/
   a.1.1 = b.1.1 /\ (a.1.2 < b.1.2 \/ a.1.2 = b.1.2 /\ a.2 < b.2))%Z.

(** ** Example quantizers and inputs *)

Module Examples.

(** Some binary32 numbers. *)
Definition f_0_25 : f32 := S754_finite false 8388608 (-25).
Definition f_0_5 : f32 := S754_finite false 8388608 (-24).
Definition f_1 : f32 := S754_finite false 8388608 (-23).
Definition f_m0_3 : f32 := S754_finite true 10066330 (-25).   (* -0.3 *)
Definition f_8194 : f32 := S754_finite false 8390656 (-10).
Definition f_8195 : f32 := S754_finite false 8391680 (-10).

(** [VectorQuantizer(embed_dim=1, n_embed=1)] with the weight [[0.5]]. *)
Definition vq_1 : Quantizer f32 :=
  mkQuantizer true true 1 1 f_0_25 false None [[f_0_5]].

(** [VectorQuantizer(embed_dim=1, n_embed=1, use_residual=True,
    num_quantizers=1)] with the same weight. *)
Definition vq_1_residual : Quantizer f32 :=
  mkQuantizer true true 1 1 f_0_25 true (Some 1%Z) [[f_0_5]].

(** The input [[[-0.3]]]. *)
Definition z_m0_3 : Tensor f32 := mkTensor 1 1 1 [f_m0_3].

(** [VectorQuantizer(embed_dim=1, n_embed=2, use_norm=False)] with the
    weight [[8194], [8195]], and the input [[[8194]]]. *)
Definition vq_far : Quantizer f32 :=
  mkQuantizer true false 2 1 f_0_25 false None [[f_8194]; [f_8195]].

Definition z_8194 : Tensor f32 := mkTensor 1 1 1 [f_8194].

(** [VectorQuantizer(embed_dim=2, n_embed=2)] and
    [VectorQuantizer(embed_dim=2, n_embed=2, use_residual=True,
    num_quantizers=2)] with the weight [[0.5, 0.25], [-0.3, 1]], and an
    input of shape [(1, 2, 2)]. *)
Definition vq_2 : Quantizer f32 :=
  mkQuantizer true true 2 2 f_0_25 false None
    [[f_0_5; f_0_25]; [f_m0_3; f_1]].

Definition vq_2_residual : Quantizer f32 :=
  mkQuantizer true true 2 2 f_0_25 true (Some 2%Z)
    [[f_0_5; f_0_25]; [f_m0_3; f_1]].

Definition z_2 : Tensor f32 :=
  mkTensor 1 2 2 [f_1; f_0_5; f_m0_3; f_0_25].

(** [VectorQuantizer(embed_dim=2, n_embed=1)] with the weight [[1, 1]],
    and the input [[[1, 0.5]]]. *)
Definition vq_diag : Quantizer f32 :=
  mkQuantizer true true 1 2 f_0_25 false None [[f_1; f_1]].

Definition z_diag : Tensor f32 := mkTensor 1 1 2 [f_1; f_0_5].

(** 0.70710677, the binary32 number nearest to the square root of 1/2. *)
Definition f_0_707 : f32 := S754_finite false 11863283 (-24).

(** In exact arithmetic: a quantizer with [use_norm] whose one codebook
    row, [[1e-13]], is shorter than [eps], and the input [[[1]]]. *)
Definition vq_short : Quantizer R :=
  mkQuantizer true true 1 1 (/ 4)%R false None [[(/ 10 ^ 13)%R]].

Definition z_one : Tensor R := mkTensor 1 1 1 [1%R].

(** In exact arithmetic: the weight [[3, 4], [1, 0]]. *)
Definition vq_exact : Quantizer R :=
  mkQuantizer true true 2 2 (/ 4)%R false None
    [[3%R; 4%R]; [1%R; 0%R]].

Definition vq_exact_residual : Quantizer R :=
  mkQuantizer true true 2 2 (/ 4)%R true (Some 2%Z)
    [[3%R; 4%R]; [1%R; 0%R]].

Definition z_exact : Tensor R := mkTensor 1 2 2 [1%R; 1%R; 2%R; 0%R].

(** A memory with the input [z_2] at location 0 and the weight of
    [vq_2] at location 1. *)
Definition z_ref : TensorRef := mkRef 0 1 2 2.

Definition memory : store f32 :=
  {[ 0 := [f_1; f_0_5; f_m0_3; f_0_25];
     1 := [f_0_5; f_0_25; f_m0_3; f_1] ]}.

End Examples.

(** ** Further operations, used to state how the methods behave *)

Section More.
Context {T : Type} `{Scalar T}.

(** The number of elements of a shape. *)
Definition shape_numel (s : list nat) : nat := foldr Nat.mul 1 s.

(** [c * z] for a scalar [c]. *)
Definition tscale (c : T) (z : Tensor T) : Tensor T :=
  mkTensor (nb z) (nt z) (nc z) (map (s_mul c) (data z)).

(** The same quantizer with other [use_residual] and [num_quantizers]. *)
Definition set_residual (b : bool) (K : option Z) (q : Quantizer T)
  : Quantizer T :=
  mkQuantizer (straight_through q) (use_norm q) (n_embed q) (embed_dim q)
    (beta q) b K (weight q).

End More.


(** The row of length [n] that is one at [k] and zero elsewhere, and what
    [F.gumbel_softmax] returns with [hard=True] in exact arithmetic: rows
    of this form. *)
Definition one_hot_row (n k : nat) : list R :=
  <[k := 1%R]> (replicate n 0%R).

Definition hard_one_hot
    (gumbel_softmax : R -> bool -> list (list R) -> list (list R)) : Prop :=
  forall tau ls,
    Forall (fun r => r <> [] ->
                     exists k, k < length r /\ r = one_hot_row (length r) k)
      (gumbel_softmax tau true ls).

(** [F.gumbel_softmax] with [hard=True] when the noise it draws is zero:
    the one-hot row of the largest logit. *)
Definition hard_argmax (tau : R) (hard : bool) (ls : list (list R))
  : list (list R) :=
  map (fun r => one_hot_row (length r) (argmax r)) ls.

(** ** More example inputs *)

Module Examples2.

(** An empty batch of shape [(0, 3, 2)], and an input with a NaN in its
    first row. *)
Definition z_empty : Tensor f32 := mkTensor 0 3 2 [].

Definition z_nan : Tensor f32 :=
  mkTensor 1 2 2 [Examples.f_1; S754_nan; Examples.f_m0_3; Examples.f_0_25].

(** [VectorQuantizer(embed_dim=2, n_embed=2, use_residual=True)], with
    [num_quantizers] left at its default. *)
Definition vq_2_unset : Quantizer f32 :=
  set_residual true None Examples.vq_2.

(** What [F.gumbel_softmax] returns with [hard=True] when the noise it
    draws leaves the largest logit the largest: the one-hot row of that
    logit. *)
Definition hard_no_noise (tau : f32) (hard : bool) (ls : list (list f32))
  : list (list f32) :=
  map (fun r => <[argmax r := Examples.f_1]>
                  (replicate (length r) (S754_zero false))) ls.

(** The attributes of a Gumbel quantizer with [embed_dim = 2] and the one
    codebook row [[1, 0]], and an input of shape [(1, 1, 4)], which
    [z.view(-1, 2)] reads as the two rows [[0, 1]] and [[1, 0]]. *)
Definition gq_one : Quantizer f32 :=
  mkQuantizer false true 1 2 Examples.f_0_25 false None
    [[Examples.f_1; S754_zero false]].

Definition z_wide : Tensor f32 :=
  mkTensor 1 1 4
    [S754_zero false; Examples.f_1; Examples.f_1; S754_zero false].

End Examples2.

(** ** Lists of rows *)

Section Rows.
Context {A : Type}.
Implicit Types (l r : list A) (ls : list (list A)).

Lemma length_join_same (d : nat) ls :
  Forall (fun r => length r = d) ls -> length (mjoin ls) = length ls * d.
Proof.
  induction 1 as [|r ls Hr _ IH]; simpl; [done|].
  rewrite length_app, IH, Hr. lia.
Qed.

Lemma reshape_join (d : nat) ls :
  Forall (fun r => length r = d) ls ->
  reshape (replicate (length ls) d) (mjoin ls) = ls.
Proof.
  induction 1 as [|r ls Hr _ IH]; simpl; [done|].
  rewrite take_app_length', drop_app_length' by done. by rewrite IH.
Qed.

Lemma take_drop_join (d : nat) ls (p : nat) r :
  Forall (fun r => length r = d) ls ->
  ls !! p = Some r ->
  take d (drop (p * d) (mjoin ls)) = r.
Proof.
  intros Hls. revert p r.
  induction Hls as [|r0 ls Hr _ IH]; intros p r Hp.
  - by rewrite lookup_nil in Hp.
  - destruct p as [|p]; simpl in *.
    + injection Hp as ->. by rewrite drop_0, take_app_length'.
    + rewrite drop_app_add' by done. by apply IH.
Qed.

Lemma Forall_length_reshape (n d : nat) l :
  length l = n * d ->
  Forall (fun r => length r = d) (reshape (replicate n d) l).
Proof.
  revert l. induction n as [|n IH]; intros l Hl; simpl; [done|].
  constructor.
  - rewrite length_take. lia.
  - apply IH. rewrite length_drop. lia.
Qed.
End Rows.

(** ** Facts about [quantize] that hold in every arithmetic *)

Section QuantizeFacts.
Context {T : Type} `{Scalar T}.
Implicit Types (q : Quantizer T) (z : Tensor T) (r : list T).

Lemma argmin_from_lt (l : list T) : forall best bi i,
  bi < i -> argmin_from best bi i l < i + length l.
Proof.
  induction l as [|x l IH]; intros best bi i Hbi; simpl; [lia|].
  destruct (less x best).
  - specialize (IH x i (S i)). lia.
  - specialize (IH best bi (S i)). lia.
Qed.

Lemma argmin_lt (l : list T) : l <> [] -> argmin l < length l.
Proof.
  destruct l as [|x l]; [done|]. intros _. simpl.
  pose proof (argmin_from_lt l x 0 1). lia.
Qed.

Lemma argmax_from_lt (l : list T) : forall best bi i,
  bi < i -> argmax_from best bi i l < i + length l.
Proof.
  induction l as [|x l IH]; intros best bi i Hbi; simpl; [lia|].
  destruct (more x best).
  - specialize (IH x i (S i)). lia.
  - specialize (IH best bi (S i)). lia.
Qed.

Lemma argmax_lt (l : list T) : l <> [] -> argmax l < length l.
Proof.
  destruct l as [|x l]; [done|]. intros _. simpl.
  pose proof (argmax_from_lt l x 0 1). lia.
Qed.

Lemma length_normalize r : length (normalize r) = length r.
Proof. unfold normalize. by rewrite length_map. Qed.

Lemma length_norm q r : length (norm q r) = length r.
Proof. unfold norm. destruct (use_norm q); [apply length_normalize|done]. Qed.

Lemma length_distances (en : list (list T)) r :
  length (distances en r) = length en.
Proof. unfold distances. by rewrite length_map. Qed.

Lemma Forall_length_map_norm q (d : nat) (ls : list (list T)) :
  Forall (fun r => length r = d) ls ->
  Forall (fun r => length r = d) (map (norm q) ls).
Proof.
  intros Hls. apply Forall_fmap. eapply Forall_impl; [exact Hls|].
  intros r Hr. simpl. by rewrite length_norm.
Qed.

Lemma length_indices_of q z :
  length (indices_of q z) = length (data z) / embed_dim q.
Proof.
  unfold indices_of, rows.
  by rewrite !length_map, length_reshape, length_replicate.
Qed.

Lemma indices_of_lt q z :
  weight q <> [] -> Forall (fun k => k < length (weight q)) (indices_of q z).
Proof.
  intros Hw. unfold indices_of. rewrite Forall_forall. intros k Hk.
  apply list_elem_of_fmap in Hk as (dr & -> & Hdr).
  apply list_elem_of_fmap in Hdr as (r & -> & _).
  pose proof (argmin_lt (distances (map (norm q) (weight q)) r)) as Hlt.
  rewrite length_distances, length_map in Hlt. apply Hlt.
  unfold distances. destruct (weight q); [done|]. done.
Qed.

(** What a returning call of [quantize] has checked and computed. *)
Lemma quantize_inv q z z_q loss ix :
  quantize q z = Some (z_q, loss, ix) ->
  0 < embed_dim q /\
  length (data z) `mod` embed_dim q = 0 /\
  weight q <> [] /\
  length (indices_of q z) = nb z * nt z /\
  length (mjoin (embedding q (indices_of q z))) = numel z /\
  z_q = mkTensor (nb z) (nt z) (nc z)
          (norm_last q (nc z) (mjoin (embedding q (indices_of q z)))) /\
  loss = vq_loss q (data z_q) (norm_last q (nc z) (data z)) /\
  ix = mkIndex [nb z; nt z] (indices_of q z).
Proof.
  unfold quantize. fold (indices_of q z).
  repeat case_bool_decide; try done.
  intros [= <- <- <-]. rewrite length_map in *.
  repeat split; try done; try lia.
  intros Hw. rewrite Hw in *. done.
Qed.

Lemma embedding_lookup q (ixs : list nat) (p k : nat) :
  ixs !! p = Some k ->
  embedding q ixs !! p = Some (default [] (weight q !! k)).
Proof. intros Hp. unfold embedding. by rewrite list_lookup_fmap, Hp. Qed.

Lemma Forall_length_embedding q (ixs : list nat) :
  wf_quantizer q ->
  Forall (fun k => k < length (weight q)) ixs ->
  Forall (fun r => length r = embed_dim q) (embedding q ixs).
Proof.
  intros [_ Hrows] Hixs. unfold embedding. apply Forall_fmap.
  eapply Forall_impl; [exact Hixs|]. intros k Hk. simpl.
  apply lookup_lt_is_Some_2 in Hk as [r Hr]. rewrite Hr. simpl.
  eapply Forall_lookup_1 in Hrows; [|exact Hr]. done.
Qed.

Lemma rows_join (d : nat) (ls : list (list T)) :
  0 < d -> Forall (fun r => length r = d) ls -> rows d (mjoin ls) = ls.
Proof.
  intros Hd Hls. unfold rows.
  rewrite (length_join_same d) by done.
  rewrite Nat.div_mul by lia. by apply reshape_join.
Qed.

Lemma norm_last_join q (c : nat) (ls : list (list T)) :
  0 < c -> Forall (fun r => length r = c) ls ->
  norm_last q c (mjoin ls) = mjoin (map (norm q) ls).
Proof. intros Hc Hls. unfold norm_last. by rewrite rows_join. Qed.

Lemma length_norm_last q (c : nat) (l : list T) :
  length l `mod` c = 0 -> length (norm_last q c l) = length l.
Proof.
  intros Hmod. unfold norm_last, rows.
  destruct (decide (c = 0)) as [->|Hc].
  - simpl in *. by rewrite Hmod.
  - rewrite (length_join_same c).
    + rewrite length_map, length_reshape, length_replicate.
      pose proof (Nat.div_mod (length l) c Hc). lia.
    + apply Forall_length_map_norm, Forall_length_reshape.
      pose proof (Nat.div_mod (length l) c Hc). lia.
Qed.

(** The values [quantize] returns, row by row, and the shape of its
    input when it returns. *)
Lemma quantize_data q z z_q loss ix :
  wf_quantizer q ->
  quantize q z = Some (z_q, loss, ix) ->
  data z_q = mjoin (map (norm q) (embedding q (idata ix))) /\
  length (idata ix) = nb z * nt z /\
  Forall (fun k => k < n_embed q) (idata ix) /\
  (0 < nb z * nt z -> nc z = embed_dim q) /\
  wf_tensor z /\ same_shape z_q z /\ wf_tensor z_q.
Proof.
  intros Hwf Hq.
  apply quantize_inv in Hq as (HD & Hmod & Hw & Hlen & Hzq & -> & _ & ->).
  pose proof (indices_of_lt q z Hw) as Hlt.
  pose proof (Forall_length_embedding q _ Hwf Hlt) as Hemb.
  rewrite (length_join_same (embed_dim q)) in Hzq by done.
  unfold embedding in Hzq. rewrite length_map, Hlen in Hzq.
  unfold numel in Hzq. simpl.
  assert (0 < nb z * nt z -> nc z = embed_dim q) as Hc by (intros; nia).
  assert (data (mkTensor (nb z) (nt z) (nc z)
                 (norm_last q (nc z) (mjoin (embedding q (indices_of q z)))))
          = mjoin (map (norm q) (embedding q (indices_of q z)))) as Hdata.
  { simpl. destruct (decide (nb z * nt z = 0)) as [Hz|Hz].
    + rewrite Hz in Hlen. apply nil_length_inv in Hlen. rewrite Hlen.
      unfold norm_last, rows. simpl. by rewrite Nat.Div0.div_0_l.
    + rewrite Hc by lia. by apply norm_last_join. }
  split_and!; [done|done| |done| |done|].
  - destruct Hwf as [<- _]. done.
  - unfold wf_tensor, numel. rewrite length_indices_of in Hlen.
    pose proof (Nat.div_mod (length (data z)) (embed_dim q)). nia.
  - unfold wf_tensor. rewrite Hdata.
    rewrite (length_join_same (embed_dim q))
      by by apply Forall_length_map_norm.
    unfold embedding. rewrite !length_map, Hlen. unfold numel. simpl. lia.
Qed.

(** [quantize] returns on every input of shape [(b, t, embed_dim)] when
    the codebook is not empty. *)
Lemma quantize_returns q z :
  wf_quantizer q -> wf_tensor z ->
  nc z = embed_dim q -> 0 < embed_dim q -> 0 < n_embed q ->
  exists z_q loss ix, quantize q z = Some (z_q, loss, ix).
Proof.
  intros Hwf Hz Hc HD HN. unfold quantize. fold (indices_of q z).
  unfold wf_tensor, numel in Hz.
  assert (length (data z) `mod` embed_dim q = 0) as Hmod.
  { rewrite Hz, Hc. apply Nat.Div0.mod_mul. }
  assert (length (indices_of q z) = nb z * nt z) as Hlen.
  { rewrite length_indices_of, Hz, Hc. apply Nat.div_mul. lia. }
  assert (weight q <> []) as Hw.
  { destruct Hwf as [Hn _]. intros Hnil. rewrite Hnil in Hn. simpl in *. lia. }
  pose proof (indices_of_lt q z Hw) as Hlt.
  pose proof (Forall_length_embedding q _ Hwf Hlt) as Hemb.
  rewrite bool_decide_eq_false_2 by lia.
  rewrite bool_decide_eq_false_2.
  2:{ rewrite length_map. destruct (weight q); simpl; [done|lia]. }
  rewrite bool_decide_eq_false_2 by lia.
  rewrite bool_decide_eq_false_2.
  2:{ rewrite (length_join_same (embed_dim q)) by done.
      unfold embedding. rewrite length_map, Hlen. unfold numel. lia. }
  eauto.
Qed.

(** On an empty batch [quantize] returns an empty result. *)
Lemma quantize_empty q z :
  wf_quantizer q -> 0 < embed_dim q -> 0 < n_embed q ->
  data z = [] -> nb z * nt z = 0 ->
  quantize q z =
    Some (mkTensor (nb z) (nt z) (nc z) [], vq_loss q [] [],
          mkIndex [nb z; nt z] []).
Proof.
  intros [Hn _] HD HN Hdata Hbt. unfold quantize. rewrite Hdata.
  assert (rows (embed_dim q) ([] : list T) = []) as Hrows.
  { unfold rows. simpl. by rewrite Nat.Div0.div_0_l. }
  assert (forall c, norm_last q c ([] : list T) = []) as Hnl.
  { intros c. unfold norm_last, rows. simpl. by rewrite Nat.Div0.div_0_l. }
  rewrite Hrows. simpl. rewrite Nat.Div0.mod_0_l.
  rewrite bool_decide_eq_false_2 by lia.
  rewrite bool_decide_eq_false_2 by (rewrite length_map; lia).
  rewrite bool_decide_eq_false_2 by lia.
  rewrite bool_decide_eq_false_2 by (unfold numel; rewrite Hbt; simpl; lia).
  by rewrite Hnl.
Qed.

(** The calls on which [quantize] returns; on every other call one of its
    two [view]s or [argmin] raises.  The condition reads the shapes only. *)
Lemma quantize_is_Some q z :
  wf_quantizer q -> wf_tensor z ->
  is_Some (quantize q z) <->
  0 < embed_dim q /\ 0 < n_embed q /\
  (nb z * nt z = 0 \/ nc z = embed_dim q).
Proof.
  intros Hwf Hz. split.
  - intros [[[z_q loss] ix] Hq].
    pose proof (quantize_inv q z z_q loss ix Hq) as (HD & _ & Hw & _).
    pose proof (quantize_data q z z_q loss ix Hwf Hq) as (_&_&_&Hc&_).
    destruct Hwf as [Hn _]. split_and!; [done| |].
    + destruct (weight q); [done|]. simpl in Hn. lia.
    + destruct (decide (nb z * nt z = 0)); [by left|right; apply Hc; lia].
  - intros (HD & HN & [Hbt|Hc]).
    + rewrite (quantize_empty q z); [done..| |done].
      unfold wf_tensor, numel in Hz. rewrite Hbt in Hz.
      by apply nil_length_inv.
    + destruct (quantize_returns q z Hwf Hz Hc HD HN) as (?&?&?&->). done.
Qed.

End QuantizeFacts.

(** ** The codebook entries [quantize] returns *)

Section Codebook.
Context {T : Type} `{Scalar T}.
Implicit Types (q : Quantizer T) (z : Tensor T).

Lemma flat_position (b t i j : nat) : i < b -> j < t -> i * t + j < b * t.
Proof. nia. Qed.

(** Position [(i, j)] of the result holds the normalised codebook row
    that the index at [(i, j)] selects. *)
Lemma quantize_vec_at q z z_q loss ix (i j : nat) :
  wf_quantizer q ->
  quantize q z = Some (z_q, loss, ix) ->
  i < nb z -> j < nt z ->
  exists k e,
    index_at (nt z) ix i j = Some k /\ k < n_embed q /\
    weight q !! k = Some e /\ vec_at z_q i j = norm q e.
Proof.
  intros Hwf Hq Hi Hj.
  pose proof (flat_position _ _ _ _ Hi Hj) as Hp.
  destruct (quantize_data q z z_q loss ix Hwf Hq)
    as (Hdata & Hlen & Hlt & Hc & _ & (_ & Hnt & Hnc) & _).
  destruct (lookup_lt_is_Some_2 (idata ix) (i * nt z + j)) as [k Hk];
    [lia|].
  pose proof (Forall_lookup_1 _ _ _ _ Hlt Hk) as Hkn. simpl in Hkn.
  pose proof Hwf as [Hn Hrows].
  destruct (lookup_lt_is_Some_2 (weight q) k) as [e He]; [lia|].
  exists k, e. split_and!; [done|done|done|].
  unfold vec_at. rewrite Hnt, Hnc, Hc, Hdata by lia.
  apply take_drop_join.
  - apply Forall_length_map_norm, Forall_length_embedding; [done|].
    by rewrite Hn.
  - rewrite list_lookup_fmap, (embedding_lookup q _ _ k) by done.
    simpl. by rewrite He.
Qed.

End Codebook.

(** C1.  For every input [z] of shape [(b, t, embed_dim)], [quantize]
    returns, and at each position [(i, j)] the first component is the
    codebook row [embedding.weight[encoding_indices[i, j]]], passed through
    [self.norm] (normalised when [use_norm] is true, unchanged otherwise):
    every returned vector comes from one of the [n_embed] codebook rows. *)
Theorem quantize_codebook_rows {T : Type} `{Scalar T}
    (q : Quantizer T) (z : Tensor T) :
  wf_quantizer q -> wf_tensor z -> nc z = embed_dim q ->
  0 < embed_dim q -> 0 < n_embed q ->
  exists z_q loss ix,
    quantize q z = Some (z_q, loss, ix) /\
    forall i j, i < nb z -> j < nt z ->
      exists k e,
        index_at (nt z) ix i j = Some k /\ k < n_embed q /\
        weight q !! k = Some e /\ vec_at z_q i j = norm q e.
Proof.
  intros Hwf Hz Hc HD HN.
  destruct (quantize_returns q z Hwf Hz Hc HD HN) as (z_q & loss & ix & Hq).
  exists z_q, loss, ix. split; [done|].
  intros i j Hi Hj. by eapply quantize_vec_at.
Qed.

(** ** The range of the indices *)

Section IndexRange.
Context {T : Type} `{Scalar T}.
Implicit Types (q : Quantizer T) (z : Tensor T).

Lemma Forall_length_rows (d : nat) (l : list T) :
  0 < d -> length l `mod` d = 0 ->
  Forall (fun r => length r = d) (rows d l).
Proof.
  intros Hd Hmod. unfold rows. apply Forall_length_reshape.
  pose proof (Nat.div_mod (length l) d). lia.
Qed.

Lemma Forall_argmax_lt (n : nat) (ls : list (list T)) :
  0 < n -> Forall (fun r => length r = n) ls ->
  Forall (fun k => k < n) (map argmax ls).
Proof.
  intros Hn Hls. apply Forall_fmap. eapply Forall_impl; [exact Hls|].
  intros r Hr. simpl. rewrite <-Hr. apply argmax_lt.
  intros ->. simpl in Hr. lia.
Qed.

Lemma expand_same {A : Type} (d : A) (n : nat) (l : list A) :
  expand d n n l = l.
Proof. unfold expand. by rewrite bool_decide_eq_true_2. Qed.

Lemma length_columns (d : nat) (m : list (list T)) :
  length (columns d m) = d.
Proof. unfold columns. by rewrite length_map, length_seq. Qed.

Lemma length_logits_row (en : list (list T)) (r : list T) :
  length (logits_row en r) = length en.
Proof. unfold logits_row. by rewrite length_map. Qed.

(** The number of logits: one per row of [z.view(-1, embed_dim)] and
    codebook row. *)
Lemma length_logits q (l : list T) :
  length (mjoin (map (logits_row (map (norm q) (weight q)))
                   (map (norm q) (rows (embed_dim q) l))))
  = length l / embed_dim q * length (weight q).
Proof.
  rewrite (length_join_same (length (weight q))).
  - unfold rows. by rewrite !length_map, length_reshape, length_replicate.
  - apply Forall_fmap, Forall_forall. intros r _. simpl.
    by rewrite length_logits_row, length_map.
Qed.

(** What a returning call of [GumbelQuantizer.quantize] has checked and
    computed; [N] is the number of logits per position, which is
    [n_embed] on an input of shape [(b, t, embed_dim)]. *)
Lemma gumbel_quantize_inv gumbel_softmax softmax log c_1e_10
    q training temperature kl_weight temp z z_q loss ix :
  keeps_shape gumbel_softmax -> wf_quantizer q ->
  gumbel_quantize gumbel_softmax softmax log c_1e_10
    q training temperature kl_weight temp z = Some (z_q, loss, ix) ->
  exists (N : nat) (soft_one_hot : list (list T)),
    0 < nb z * nt z /\ 0 < N /\ 0 < n_embed q /\
    (N = n_embed q \/ N = 1 \/ n_embed q = 1) /\
    (fits q z -> N = n_embed q) /\
    length soft_one_hot = nb z * nt z /\
    Forall (fun r => length r = N) soft_one_hot /\
    (exists logits, soft_one_hot
       = gumbel_softmax (default temperature temp) (negb training) logits) /\
    z_q = mkTensor (nb z) (nt z) (embed_dim q)
            (mjoin
               (map (fun r =>
                       map (dot (expand s_zero N
                                   (if bool_decide (N = 1) then n_embed q
                                    else N) r))
                         (columns (embed_dim q)
                            (expand [] (n_embed q)
                               (if bool_decide (N = 1) then n_embed q
                                else N)
                               (map (norm q) (weight q)))))
                  soft_one_hot)) /\
    ix = mkIndex [nb z; nt z] (map argmax soft_one_hot).
Proof.
  intros Hshape [Hn _]. unfold gumbel_quantize. cbv zeta.
  rewrite length_logits, length_map, Hn.
  set (logits := mjoin (map (logits_row _) _)).
  set (L := length (data z) / embed_dim q * n_embed q).
  set (N := L / (nb z * nt z)).
  assert (length logits = L) as HL.
  { subst logits L. by rewrite length_logits, Hn. }
  set (K := if bool_decide (N = 1) then n_embed q else N).
  repeat case_bool_decide; try done. intros [= <- _ <-].
  assert (L = nb z * nt z * N) as Hlen.
  { pose proof (Nat.div_mod L (nb z * nt z)). subst N. lia. }
  assert (Forall (fun r => length r = N) (rows N logits)) as Hrows.
  { apply Forall_length_rows; [lia|]. rewrite HL, Hlen.
    apply Nat.Div0.mod_mul. }
  assert (length (rows N logits) = nb z * nt z) as Hlr.
  { unfold rows. rewrite length_reshape, length_replicate, HL, Hlen.
    apply Nat.div_mul. lia. }
  pose proof (Hshape (default temperature temp) (negb training)
                (rows N logits)) as Hsh.
  exists N, (gumbel_softmax (default temperature temp) (negb training)
               (rows N logits)).
  split_and!; [lia|lia| |lia| | | |by eexists|done|done].
  - subst L. destruct (n_embed q); [|lia]. rewrite Nat.mul_0_r in Hlen. lia.
  - intros [Hz Hc]. unfold wf_tensor, numel in Hz. subst N L.
    rewrite Hz, Hc, Nat.div_mul by lia.
    rewrite Nat.mul_comm. apply Nat.div_mul. lia.
  - by rewrite <-(Forall2_length _ _ _ Hsh).
  - clear -Hrows Hsh.
    induction Hsh as [|r r' ls ls' Hr _ IH]; [done|].
    apply Forall_cons in Hrows as [Hr0 Hrows].
    constructor; [lia|by apply IH].
Qed.

(** [GumbelQuantizer.quantize] returns on every batch that is not empty
    and has shape [(b, t, embed_dim)]. *)
Lemma gumbel_quantize_returns gumbel_softmax softmax log c_1e_10
    q training temperature kl_weight temp z :
  wf_quantizer q -> fits q z ->
  0 < embed_dim q -> 0 < n_embed q -> 0 < nb z * nt z ->
  is_Some (gumbel_quantize gumbel_softmax softmax log c_1e_10
             q training temperature kl_weight temp z).
Proof.
  intros [Hn _] [Hz Hc] HD HN Hbt. unfold gumbel_quantize. cbv zeta.
  rewrite length_logits, length_map, Hn.
  unfold wf_tensor, numel in Hz. rewrite Hz, Hc.
  rewrite Nat.Div0.mod_mul, Nat.div_mul by lia.
  rewrite (Nat.mul_comm (nb z * nt z) (n_embed q)).
  rewrite Nat.Div0.mod_mul, Nat.div_mul by lia.
  repeat case_bool_decide; try done; exfalso; lia.
Qed.

(** The indices of [GumbelQuantizer.quantize] are below [n_embed] on an
    input of shape [(b, t, embed_dim)], and on every input when [n_embed]
    is not 1. *)
Lemma gumbel_indices_lt gumbel_softmax softmax log c_1e_10
    q training temperature kl_weight temp z z_q loss ix :
  keeps_shape gumbel_softmax ->
  wf_quantizer q ->
  fits q z \/ n_embed q <> 1 ->
  gumbel_quantize gumbel_softmax softmax log c_1e_10
    q training temperature kl_weight temp z = Some (z_q, loss, ix) ->
  Forall (fun k => k < n_embed q) (idata ix).
Proof.
  intros Hshape Hwf Hcase Hq.
  destruct (gumbel_quantize_inv _ _ _ _ _ _ _ _ _ _ _ _ _ Hshape Hwf Hq)
    as (N & soh & _ & HN & HNe & Hsizes & Hfits & _ & Hrows & _ & _ & ->).
  simpl. eapply Forall_impl.
  - apply (Forall_argmax_lt N); [done|exact Hrows].
  - intros k Hk. simpl in *. destruct Hcase as [Hz|Hne].
    + rewrite <-(Hfits Hz). done.
    + lia.
Qed.

End IndexRange.

(** C7, as amended.  Every index that [VectorQuantizer.quantize] returns
    lies in [[0, n_embed)].  Every index that [GumbelQuantizer.quantize]
    returns lies in [[0, n_embed)] when the input has shape
    [(b, t, embed_dim)], or when [n_embed] is not 1; the lookup in the
    embedding table is then in bounds. *)
Theorem encoding_indices_in_range {T : Type} `{Scalar T}
    (gumbel_softmax : T -> bool -> list (list T) -> list (list T))
    (softmax : list T -> list T) (log : T -> T) (c_1e_10 : T)
    (q : Quantizer T) (training : bool) (temperature kl_weight : T)
    (temp : option T) (z : Tensor T) :
  wf_quantizer q ->
  keeps_shape gumbel_softmax ->
  (forall z_q loss ix,
     quantize q z = Some (z_q, loss, ix) ->
     Forall (fun k => k < n_embed q) (idata ix) /\
     Forall (fun k => is_Some (weight q !! k)) (idata ix)) /\
  (forall z_q loss ix,
     gumbel_quantize gumbel_softmax softmax log c_1e_10
       q training temperature kl_weight temp z = Some (z_q, loss, ix) ->
     fits q z \/ n_embed q <> 1 ->
     Forall (fun k => k < n_embed q) (idata ix) /\
     Forall (fun k => is_Some (weight q !! k)) (idata ix)).
Proof.
  intros Hwf Hshape.
  assert (forall l : list nat, Forall (fun k => k < n_embed q) l ->
            Forall (fun k => is_Some (weight q !! k)) l) as Hbound.
  { intros l Hl. eapply Forall_impl; [exact Hl|]. intros k Hk. simpl.
    apply lookup_lt_is_Some_2. destruct Hwf as [-> _]. done. }
  split.
  - intros z_q loss ix Hq.
    pose proof (quantize_data q z z_q loss ix Hwf Hq) as (_ & _ & Hlt & _).
    split; [done|by apply Hbound].
  - intros z_q loss ix Hq Hcase.
    pose proof (gumbel_indices_lt _ _ _ _ _ _ _ _ _ _ _ _ _
                  Hshape Hwf Hcase Hq).
    split; [done|by apply Hbound].
Qed.

(** ** [forward] *)

Section Forward.
Context {T : Type} `{Scalar T}.
Implicit Types (q : Quantizer T) (z r : Tensor T).

Lemma wf_tsub x y :
  wf_tensor x -> wf_tensor y -> same_shape y x -> wf_tensor (tsub x y).
Proof.
  unfold wf_tensor, numel, same_shape. intros Hx Hy (Hb & Ht & Hc). simpl.
  rewrite length_zip_with, Hx, Hy, Hb, Ht, Hc. lia.
Qed.

Lemma wf_tadd x y :
  wf_tensor x -> wf_tensor y -> same_shape y x -> wf_tensor (tadd x y).
Proof.
  unfold wf_tensor, numel, same_shape. intros Hx Hy (Hb & Ht & Hc). simpl.
  rewrite length_zip_with, Hx, Hy, Hb, Ht, Hc. lia.
Qed.

Lemma wf_tzeros_like z : wf_tensor z -> wf_tensor (tzeros_like z).
Proof. unfold wf_tensor, numel. simpl. by rewrite length_replicate. Qed.

Lemma fits_tsub q r x :
  fits q r -> wf_tensor x -> same_shape x r -> fits q (tsub r x).
Proof. intros [Hr Hc] Hx Hs. split; [by apply wf_tsub|done]. Qed.

(** One turn of the loop seen from its first stage. *)
Lemma residual_after_S q z (k : nat) :
  residual_after q z (S k) =
  match quantize q z with
  | None => None
  | Some (q_1, _, _) => residual_after q (tsub z q_1) k
  end.
Proof.
  induction k as [|k IH].
  - simpl. by destruct (quantize q z) as [[[??]?]|].
  - change (residual_after q z (S (S k))) with
      (match residual_after q z (S k) with
       | None => None
       | Some r => match quantize q r with
                   | None => None
                   | Some (q_k, _, _) => Some (tsub r q_k)
                   end
       end).
    rewrite IH. destruct (quantize q z) as [[[q_1 ?]?]|]; done.
Qed.

Lemma stage_S q z (k : nat) :
  stage q z (S k) =
  match quantize q z with
  | None => None
  | Some (q_1, _, _) => stage q (tsub z q_1) k
  end.
Proof.
  unfold stage. rewrite residual_after_S.
  destruct (quantize q z) as [[[q_1 ?]?]|]; done.
Qed.

(** The loop runs [k] stages from its current residual and accumulates
    their results. *)
Lemma residual_loop_stages q (k : nat) : forall r z_q losses ixs,
  wf_quantizer q -> fits q r -> 0 < embed_dim q -> 0 < n_embed q ->
  exists (outs : list (Tensor T * T * IndexTensor)) (r' : Tensor T),
    length outs = k /\
    (forall m, m < k -> stage q r m = outs !! m) /\
    Forall (fun o => same_shape o.1.1 r /\ wf_tensor o.1.1 /\
                     length (idata o.2) = nb r * nt r) outs /\
    residual_after q r k = Some r' /\
    residual_loop q k r z_q losses ixs =
      Some (r', fold_left tadd outs.*1.*1 z_q,
            losses ++ outs.*1.*2, ixs ++ outs.*2).
Proof.
  induction k as [|k IH]; intros r z_q losses ixs Hwf Hr HD HN.
  - exists [], r. simpl. rewrite !app_nil_r.
    split_and!; [done|lia|done|done|done].
  - destruct Hr as [Hr Hc].
    destruct (quantize_returns q r Hwf Hr Hc HD HN)
      as (q_1 & l_1 & i_1 & Hq).
    destruct (quantize_data q r q_1 l_1 i_1 Hwf Hq)
      as (_ & Hlen & _ & _ & _ & Hshape & Hq1).
    assert (fits q (tsub r q_1)) as Hr' by (by apply fits_tsub).
    destruct (IH (tsub r q_1) (tadd z_q q_1) (losses ++ [l_1])
                (ixs ++ [i_1]) Hwf Hr' HD HN)
      as (outs & r' & Hk & Hst & Hall & Hres & Hloop).
    exists ((q_1, l_1, i_1) :: outs), r'. split_and!.
    + simpl. by rewrite Hk.
    + intros [|m] Hm.
      * simpl. unfold stage. simpl. done.
      * rewrite stage_S, Hq. simpl. apply Hst. lia.
    + constructor; [done|]. eapply Forall_impl; [exact Hall|].
      intros o (Hs & Ho & Hi). split_and!; done.
    + by rewrite residual_after_S, Hq.
    + simpl. rewrite Hq, Hloop. by rewrite <-!app_assoc.
Qed.

Lemma omap_lookup_total (xs : list (list nat)) (p : nat) :
  Forall (fun x => p < length x) xs ->
  omap (fun x => x !! p) xs = map (fun x => default 0 (x !! p)) xs.
Proof.
  induction 1 as [|x xs Hx _ IH]; [done|]. simpl.
  apply lookup_lt_is_Some_2 in Hx as [v Hv]. rewrite Hv. simpl.
  f_equal. exact IH.
Qed.

(** [torch.stack(xs, dim=-1)]: entry [(p, k)] is entry [p] of [xs[k]]. *)
Lemma stack_last_lookup (xs : list (list nat)) (n p k : nat) x :
  Forall (fun x => length x = n) xs ->
  p < n -> xs !! k = Some x ->
  stack_last xs n !! (p * length xs + k) = x !! p.
Proof.
  intros Hxs Hp Hk. unfold stack_last.
  assert (Forall (fun x => p < length x) xs) as Hlt.
  { eapply Forall_impl; [exact Hxs|]. simpl. lia. }
  pose proof (Forall_lookup_1 _ _ _ _ Hlt Hk) as Hpx. simpl in Hpx.
  apply lookup_lt_is_Some_2 in Hpx as [v Hv]. rewrite Hv.
  apply (join_lookup_Some_same_length' (length xs)).
  - apply Forall_fmap, Forall_forall. intros p' Hp'. simpl.
    apply elem_of_seq in Hp'. rewrite omap_lookup_total.
    + by rewrite length_map.
    + eapply Forall_impl; [exact Hxs|]. simpl. lia.
  - by eapply lookup_lt_Some.
  - exists (omap (fun x => x !! p) xs). split.
    + rewrite list_lookup_fmap, lookup_seq_lt by done. done.
    + rewrite omap_lookup_total by done.
      rewrite list_lookup_fmap, Hk. simpl. by rewrite Hv.
Qed.

Lemma fold_tadd_shape z (qs : list (Tensor T)) : forall acc,
  same_shape acc z -> wf_tensor acc ->
  Forall (fun x => same_shape x z /\ wf_tensor x) qs ->
  same_shape (fold_left tadd qs acc) z /\ wf_tensor (fold_left tadd qs acc).
Proof.
  induction qs as [|x qs IH]; intros acc Hs Hacc Hqs; simpl; [done|].
  apply Forall_cons in Hqs as [[Hx Hwx] Hqs].
  apply IH; [done| |done].
  apply wf_tadd; [done|done|].
  destruct Hx as (?&?&?), Hs as (?&?&?). split_and!; congruence.
Qed.

(** The residual branch: [K] stages, their sum, the mean of their losses
    and their indices stacked. *)
Lemma forward_branches_residual q z (K : Z) :
  wf_quantizer q -> fits q z -> 0 < embed_dim q -> 0 < n_embed q ->
  use_residual q = true -> num_quantizers q = Some K -> (0 < K)%Z ->
  exists outs : list (Tensor T * T * IndexTensor),
    length outs = Z.to_nat K /\
    (forall k, k < Z.to_nat K -> stage q z k = outs !! k) /\
    Forall (fun o => same_shape o.1.1 z /\ wf_tensor o.1.1 /\
                     length (idata o.2) = nb z * nt z) outs /\
    forward_branches q z =
      Some (sum_stages z outs.*1.*1, tmean outs.*1.*2,
            stack_indices (nb z) (nt z) outs.*2).
Proof.
  intros Hwf Hz HD HN Hres HK Hpos.
  destruct (residual_loop_stages q (Z.to_nat K) z (tzeros_like z) [] []
              Hwf Hz HD HN) as (outs & r' & Hk & Hst & Hall & _ & Hloop).
  exists outs. split_and!; [done|done|done|].
  unfold forward_branches. rewrite Hres, HK. simpl. rewrite Hloop. simpl.
  destruct outs as [|o outs]; [simpl in Hk; lia|]. done.
Qed.

Lemma straight_through_estimator_shape z z_q :
  wf_tensor z -> wf_tensor z_q -> same_shape z_q z ->
  same_shape (straight_through_estimator z z_q) z /\
  wf_tensor (straight_through_estimator z z_q).
Proof.
  intros Hz Hq Hs. split; [done|]. unfold straight_through_estimator.
  apply wf_tadd; [done| |].
  - apply wf_tsub; [done|done|]. destruct Hs as (?&?&?). done.
  - done.
Qed.

End Forward.

(** ** The straight-through line *)

Section StraightThrough.
Context {T : Type} `{Scalar T}.
Implicit Types (q : Quantizer T) (z : Tensor T).

Lemma quantize_set_straight_through (b : bool) q z :
  quantize (set_straight_through b q) z = quantize q z.
Proof. reflexivity. Qed.

Lemma residual_loop_set_straight_through (b : bool) q (k : nat) :
  forall r acc losses ixs,
    residual_loop (set_straight_through b q) k r acc losses ixs =
    residual_loop q k r acc losses ixs.
Proof.
  induction k as [|k IH]; intros r acc losses ixs; simpl; [done|].
  rewrite quantize_set_straight_through.
  destruct (quantize q r) as [[[q_1 l_1] i_1]|]; [apply IH|done].
Qed.

Lemma forward_branches_set_straight_through (b : bool) q z :
  forward_branches (set_straight_through b q) z = forward_branches q z.
Proof.
  unfold forward_branches. simpl.
  destruct (use_residual q); simpl; [|done].
  destruct (num_quantizers q) as [K|]; [|done].
  by rewrite residual_loop_set_straight_through.
Qed.

(** With [straight_through] the result is that without it, passed through
    [z + (z_q - z)]; loss and indices are the same. *)
Lemma forward_straight_through q z :
  forward (set_straight_through true q) z =
  match forward (set_straight_through false q) z with
  | None => None
  | Some (z_q, loss, ix) =>
      Some (straight_through_estimator z z_q, loss, ix)
  end.
Proof.
  unfold forward. rewrite !forward_branches_set_straight_through. simpl.
  destruct (forward_branches q z) as [[[z_q loss] ix]|]; done.
Qed.

(** A returning loop keeps the shape of its accumulator. *)
Lemma residual_loop_shape q (k : nat) :
  forall r acc losses ixs r' acc' losses' ixs',
    wf_quantizer q ->
    residual_loop q k r acc losses ixs = Some (r', acc', losses', ixs') ->
    same_shape acc r -> length (data acc) = length (data r) ->
    same_shape acc' r /\ length (data acc') = length (data r) /\
    length losses' = length losses + k.
Proof.
  induction k as [|k IH];
    intros r acc losses ixs r' acc' losses' ixs' Hwf Hloop Hs Hlen.
  - simpl in Hloop. injection Hloop as <- <- <- <-.
    split_and!; [done|done|lia].
  - simpl in Hloop.
    destruct (quantize q r) as [[[q_1 l_1] i_1]|] eqn:Hq; [|done].
    destruct (quantize_data q r q_1 l_1 i_1 Hwf Hq)
      as (_ & _ & _ & _ & Hr & Hs1 & Hq1).
    unfold wf_tensor in Hr, Hq1.
    assert (length (data q_1) = length (data r)) as Hlen1.
    { rewrite Hr, Hq1. unfold numel. destruct Hs1 as (-> & -> & ->). done. }
    apply IH in Hloop as (Hs' & Hlen' & Hl'); [|done|done|].
    + simpl in Hlen'. rewrite length_zip_with in Hlen'.
      rewrite length_app in Hl'. simpl in Hl'.
      split_and!; [done|lia|lia].
    + simpl. rewrite !length_zip_with. lia.
Qed.

Lemma forward_branches_shape q z z_q loss ix :
  wf_quantizer q ->
  forward_branches q z = Some (z_q, loss, ix) ->
  same_shape z_q z /\ length (data z_q) = length (data z).
Proof.
  intros Hwf. unfold forward_branches.
  destruct (use_residual q); simpl.
  - destruct (num_quantizers q) as [K|]; [|done].
    destruct (residual_loop q (Z.to_nat K) z (tzeros_like z) [] [])
      as [[[[r' acc'] losses'] ixs']|] eqn:Hloop; [|done].
    destruct losses' as [|l losses']; [done|]. intros [= <- _ _].
    eapply residual_loop_shape in Hloop as (Hs & Hlen & _); [done|done|done|].
    simpl. by rewrite length_replicate.
  - intros Hq.
    destruct (quantize_data q z z_q loss ix Hwf Hq)
      as (_ & _ & _ & _ & Hz & Hs & Hzq).
    split; [done|]. unfold wf_tensor in *. rewrite Hz, Hzq.
    unfold numel. destruct Hs as (-> & -> & ->). done.
Qed.

End StraightThrough.

(** ** When [forward] returns *)

Section Returns.
Context {T : Type} `{Scalar T}.
Implicit Types (q : Quantizer T) (z r : Tensor T).

(** The loop returns when [quantize] returns on its first residual: every
    later residual has the shape of the first, and on shapes alone depends
    whether [quantize] returns. *)
Lemma residual_loop_is_Some q (k : nat) : forall r z_q losses ixs,
  wf_quantizer q -> wf_tensor r ->
  is_Some (quantize q r) ->
  is_Some (residual_loop q k r z_q losses ixs).
Proof.
  induction k as [|k IH]; intros r z_q losses ixs Hwf Hr Hq; [done|].
  simpl. pose proof Hq as [[[q_1 l_1] i_1] Hq1]. rewrite Hq1.
  destruct (quantize_data q r q_1 l_1 i_1 Hwf Hq1)
    as (_ & _ & _ & _ & _ & Hs & Hw1).
  assert (wf_tensor (tsub r q_1)) as Hr' by (by apply wf_tsub).
  apply IH; [done|done|].
  apply quantize_is_Some; [done|done|].
  apply quantize_is_Some in Hq; done.
Qed.

Lemma forward_is_Some q z :
  wf_quantizer q -> wf_tensor z ->
  is_Some (forward q z) <->
  0 < embed_dim q /\ 0 < n_embed q /\
  (nb z * nt z = 0 \/ nc z = embed_dim q) /\
  (use_residual q = true ->
   exists K, num_quantizers q = Some K /\ (0 < K)%Z).
Proof.
  intros Hwf Hz.
  enough (is_Some (forward q z) <->
          is_Some (quantize q z) /\
          (use_residual q = true ->
           exists K, num_quantizers q = Some K /\ (0 < K)%Z)) as Hmain.
  { rewrite Hmain, (quantize_is_Some q z Hwf Hz). tauto. }
  unfold forward, forward_branches.
  destruct (use_residual q); simpl.
  - destruct (num_quantizers q) as [K|].
    2:{ split; [by intros [? ?]|]. intros [_ (K & ? & _)]; done. }
    destruct (Z.to_nat K) as [|k] eqn:HK.
    { simpl. split; [by intros [? ?]|].
      intros [_ (K' & [= <-] & HK')]; [done|]. lia. }
    split.
    + intros Hf. split.
      * simpl in Hf. destruct (quantize q z); [done|]. by destruct Hf.
      * intros _. exists K. split; [done|lia].
    + intros [Hq _].
      destruct (residual_loop_is_Some q (S k) z (tzeros_like z) [] []
                  Hwf Hz Hq) as [[[[r' acc'] losses'] ixs'] Hloop].
      rewrite Hloop.
      destruct (residual_loop_shape q (S k) _ _ _ _ _ _ _ _ Hwf Hloop)
        as (_ & _ & Hl); [done|by simpl; rewrite length_replicate|].
      destruct losses'; [simpl in Hl; lia|done].
  - split.
    + intros Hf. split; [|done].
      destruct (quantize q z) as [[[??]?]|]; [done|]. by destruct Hf.
    + intros [[[[??]?] ->] _]. done.
Qed.

End Returns.

(** C6, as amended.  [forward] returns exactly when [embed_dim] is
    positive, the codebook is not empty, the input is empty or has
    [embed_dim] as its last dimension and, in residual mode,
    [num_quantizers] is a positive integer; in every other case it raises.
    A call that returns gives a triple of a quantized tensor, a loss and an
    integer index tensor, and the quantized tensor has the shape of [z],
    in the residual case too.  In the non-residual case the loss and the
    indices are those of [quantize], and the tensor is that of [quantize],
    passed through the straight-through line when [straight_through] is
    true. *)
Theorem forward_returns_triple {T : Type} `{Scalar T}
    (q : Quantizer T) (z : Tensor T) :
  wf_quantizer q -> wf_tensor z ->
  (is_Some (forward q z) <->
   0 < embed_dim q /\ 0 < n_embed q /\
   (nb z * nt z = 0 \/ nc z = embed_dim q) /\
   (use_residual q = true ->
    exists K, num_quantizers q = Some K /\ (0 < K)%Z)) /\
  (forall (z_q : Tensor T) (loss : T) (ix : IndexTensor),
     forward q z = Some (z_q, loss, ix) ->
     same_shape z_q z /\ wf_tensor z_q /\
     (use_residual q = false ->
      exists z_q',
        quantize q z = Some (z_q', loss, ix) /\
        z_q = if straight_through q
              then straight_through_estimator z z_q' else z_q')).
Proof.
  intros Hwf Hz. split; [by apply forward_is_Some|].
  intros z_q loss ix Hf. unfold forward in Hf.
  destruct (forward_branches q z) as [[[z_q' loss'] ix']|] eqn:Hb; [|done].
  injection Hf as <- <- <-.
  destruct (forward_branches_shape q z _ _ _ Hwf Hb) as [Hs Hlen].
  assert (wf_tensor z_q') as Hw.
  { unfold wf_tensor, numel in *. destruct Hs as (-> & -> & ->). congruence. }
  split_and!.
  - destruct (straight_through q); [|done].
    by apply straight_through_estimator_shape.
  - destruct (straight_through q); [|done].
    by apply straight_through_estimator_shape.
  - intros Hres. unfold forward_branches in Hb. rewrite Hres in Hb.
    simpl in Hb. by exists z_q'.
Qed.

(** C3, as amended.  With [use_residual], [forward] runs exactly
    [num_quantizers] stages: stage [k] applies [quantize] to the residual
    [r_(k-1)], with [r_0 = z] and [r_k = r_(k-1) - q_k].  The loop
    accumulates the sum [q_1 + ... + q_K]; [forward] returns this sum when
    [straight_through] is false and [z + (sum - z)] when it is true.  The
    loss is the mean of the stage losses, and the indices are those of the
    stages stacked along a new last dimension in stage order. *)
Theorem forward_residual_stages {T : Type} `{Scalar T}
    (q : Quantizer T) (z : Tensor T) (K : Z) :
  wf_quantizer q -> fits q z -> 0 < embed_dim q -> 0 < n_embed q ->
  use_residual q = true -> num_quantizers q = Some K -> (0 < K)%Z ->
  exists outs : list (Tensor T * T * IndexTensor),
    length outs = Z.to_nat K /\
    (forall k, k < Z.to_nat K -> stage q z k = outs !! k) /\
    forward q z =
      Some (if straight_through q
            then straight_through_estimator z (sum_stages z outs.*1.*1)
            else sum_stages z outs.*1.*1,
            tmean outs.*1.*2,
            stack_indices (nb z) (nt z) outs.*2) /\
    ishape (stack_indices (nb z) (nt z) outs.*2)
      = [nb z; nt z; Z.to_nat K] /\
    forall p k ix_k,
      p < nb z * nt z -> outs.*2 !! k = Some ix_k ->
      idata (stack_indices (nb z) (nt z) outs.*2) !! (p * Z.to_nat K + k)
      = idata ix_k !! p.
Proof.
  intros Hwf Hz HD HN Hres HK Hpos.
  destruct (forward_branches_residual q z K Hwf Hz HD HN Hres HK Hpos)
    as (outs & Hk & Hst & Hall & Hf).
  exists outs. split_and!; [done|done| | |].
  - unfold forward. rewrite Hf. by destruct (straight_through q).
  - simpl. by rewrite length_fmap, Hk.
  - intros p k ix_k Hp Hix. simpl. rewrite <-Hk.
    rewrite <-(length_fmap snd outs), <-(length_fmap idata outs.*2).
    apply stack_last_lookup; [|done|].
    + apply Forall_fmap, Forall_fmap. eapply Forall_impl; [exact Hall|].
      intros o (_ & _ & Ho). done.
    + by rewrite list_lookup_fmap, Hix.
Qed.

(** ** [argmin] returns the first minimum *)

Section Argmin.
Context {T : Type} `{Scalar T}.
Hypothesis Hless : less_order.

Lemma less_asym (a b : T) : less a b = true -> less b a = false.
Proof using Hless.
  intros Hab. destruct (less b a) eqn:Hba; [|done].
  pose proof (less_trans Hless _ _ _ Hab Hba) as Haa.
  by rewrite (less_irrefl Hless) in Haa.
Qed.

Lemma less_below (a b c : T) :
  less a b = true -> less c b = false -> less a c = true.
Proof using Hless.
  intros Hab Hcb. destruct (less a c) eqn:Hac; [done|].
  pose proof (less_incomparable Hless _ _ _ Hac Hcb) as Hab'. congruence.
Qed.

Lemma argmin_from_spec (l : list T) : forall (pre : list T) best bi,
  pre !! bi = Some best ->
  (forall x, x ∈ pre -> less x best = false) ->
  (forall j y, j < bi -> pre !! j = Some y -> less best y = true) ->
  exists v,
    (pre ++ l) !! argmin_from best bi (length pre) l = Some v /\
    (forall x, x ∈ pre ++ l -> less x v = false) /\
    (forall j y, j < argmin_from best bi (length pre) l ->
                 (pre ++ l) !! j = Some y -> less v y = true).
Proof using Hless.
  induction l as [|x l IH]; intros pre best bi Hbi Hmin Hfirst.
  - simpl. rewrite app_nil_r. by exists best.
  - simpl. replace (pre ++ x :: l) with ((pre ++ [x]) ++ l)
      by (by rewrite <-app_assoc).
    replace (S (length pre)) with (length (pre ++ [x]))
      by (rewrite length_app; simpl; lia).
    pose proof (lookup_lt_Some _ _ _ Hbi) as Hlt.
    destruct (less x best) eqn:Hx.
    + apply IH.
      * by rewrite lookup_app_r, Nat.sub_diag.
      * intros y Hy. apply elem_of_app in Hy as [Hy|Hy].
        -- apply (less_incomparable Hless _ best); [by apply Hmin|].
           by apply less_asym.
        -- apply list_elem_of_singleton in Hy as ->.
           apply (less_irrefl Hless).
      * intros j y Hj Hy. rewrite lookup_app_l in Hy by lia.
        destruct (decide (j < bi)) as [Hjb|Hjb].
        -- apply (less_trans Hless _ best); [done|by eapply Hfirst].
        -- apply (less_below _ best); [done|].
           apply Hmin. by eapply list_elem_of_lookup_2.
    + apply IH.
      * by rewrite lookup_app_l.
      * intros y Hy. apply elem_of_app in Hy as [Hy|Hy].
        -- by apply Hmin.
        -- by apply list_elem_of_singleton in Hy as ->.
      * intros j y Hj Hy. rewrite lookup_app_l in Hy by lia.
        by eapply Hfirst.
Qed.

(** The index [argmin] returns holds a value none is below, and every
    earlier value is above it. *)
Lemma argmin_spec (l : list T) :
  l <> [] ->
  exists v,
    l !! argmin l = Some v /\
    (forall n x, l !! n = Some x -> less x v = false) /\
    (forall n x, n < argmin l -> l !! n = Some x -> less v x = true).
Proof using Hless.
  destruct l as [|x l]; [done|]. intros _.
  destruct (argmin_from_spec l [x] x 0) as (v & Hv & Hmin & Hfirst).
  - done.
  - intros y Hy. apply list_elem_of_singleton in Hy as ->.
    apply (less_irrefl Hless).
  - intros j y Hj. lia.
  - exists v. split_and!; [done| |done].
    intros n y Hy. apply Hmin. by eapply list_elem_of_lookup_2.
Qed.

End Argmin.

(** ** Exact arithmetic *)

Section Exact.
Implicit Types (q : Quantizer R) (z : Tensor R) (r e : list R).

Lemma Rltb_true (a b : R) : Rltb a b = true <-> (a < b)%R.
Proof. unfold Rltb. destruct (Rlt_dec a b); split; (done || lra). Qed.

Lemma Rltb_false (a b : R) : Rltb a b = false <-> (b <= a)%R.
Proof. unfold Rltb. destruct (Rlt_dec a b); split; (done || lra). Qed.

Lemma R_less_order : @less_order R R_scalar.
Proof.
  split; unfold less; simpl.
  - intros a. apply Rltb_false. lra.
  - intros a b c. rewrite !Rltb_true. lra.
  - intros a b c. rewrite !Rltb_false. lra.
Qed.

Lemma fold_Rplus_acc (l : list R) : forall a : R,
  fold_left Rplus l a = (a + fold_left Rplus l 0)%R.
Proof.
  induction l as [|x l IH]; intros a; simpl; [lra|].
  rewrite (IH (a + x)%R), (IH (0 + x)%R). lra.
Qed.

Lemma tsum_cons (x : R) (l : list R) : tsum (x :: l) = (x + tsum l)%R.
Proof. unfold tsum. simpl. rewrite fold_Rplus_acc. lra. Qed.

Lemma sumsq_cons (x : R) r : sumsq (x :: r) = (x * x + sumsq r)%R.
Proof. unfold sumsq. simpl. by rewrite tsum_cons. Qed.

Lemma sumsq_nonneg r : (0 <= sumsq r)%R.
Proof.
  induction r as [|x r IH]; [unfold sumsq, tsum; simpl; lra|].
  rewrite sumsq_cons. nra.
Qed.

(** In exact arithmetic the entries of [d] are squared distances. *)
Lemma distance_expand r e :
  length r = length e ->
  (sumsq r + sumsq e - 2 * dot r e)%R = sqdist r e.
Proof.
  revert e. induction r as [|x r IH]; intros [|y e] Hlen; try done.
  - unfold sqdist, sumsq, dot, tsum. simpl. lra.
  - injection Hlen as Hlen. specialize (IH e Hlen).
    unfold sqdist in *. simpl. rewrite !sumsq_cons.
    unfold dot in *. simpl zip_with. rewrite tsum_cons. simpl in *.
    unfold sq. simpl. lra.
Qed.

Lemma zip_add_sub (a b : list R) :
  length b = length a -> zip_with Rplus a (zip_with Rminus b a) = b.
Proof.
  revert b. induction a as [|x a IH]; intros [|y b] Hlen; try done.
  injection Hlen as Hlen. simpl. rewrite IH by done. f_equal. lra.
Qed.

(** In exact arithmetic the straight-through line returns [z_q]. *)
Lemma straight_through_estimator_exact z z_q :
  same_shape z_q z -> length (data z_q) = length (data z) ->
  straight_through_estimator z z_q = z_q.
Proof.
  intros (Hb & Ht & Hc) Hlen. destruct z_q as [b t c d]. simpl in *.
  unfold straight_through_estimator, tadd, tsub. simpl.
  rewrite zip_add_sub by done. by rewrite Hb, Ht, Hc.
Qed.

Lemma sumsq_scale (c : R) r :
  c <> 0%R -> sumsq (map (fun x => x / c)%R r) = (sumsq r / (c * c))%R.
Proof.
  intros Hc. induction r as [|x r IH].
  - unfold sumsq, tsum. simpl. lra.
  - simpl. rewrite !sumsq_cons, IH. field. done.
Qed.

(** [F.normalize] in exact arithmetic: a row whose norm is at least [eps]
    gets norm one, a shorter row gets its norm divided by [eps]. *)
Lemma normalize_norm r :
  ((s_eps <= sqrt (sumsq r) -> sqrt (sumsq (normalize r)) = 1) /\
   (sqrt (sumsq r) < s_eps ->
    sqrt (sumsq (normalize r)) = sqrt (sumsq r) / s_eps))%R.
Proof.
  assert (0 < s_eps)%R as Heps.
  { simpl. apply Rinv_0_lt_compat. lra. }
  pose proof (sumsq_nonneg r) as Hnn.
  unfold normalize, clamp_min. split; intros Hn.
  - replace (s_lt (s_sqrt (sumsq r)) s_eps) with false
      by (symmetry; by apply Rltb_false).
    simpl s_div. rewrite sumsq_scale by (simpl in *; lra).
    simpl s_sqrt. rewrite sqrt_sqrt by done.
    assert (0 < sumsq r)%R as Hpos.
    { destruct (Rle_lt_or_eq_dec _ _ Hnn) as [?|Hz]; [done|].
      rewrite <-Hz, sqrt_0 in Hn. simpl in *. lra. }
    replace (sumsq r / sumsq r)%R with 1%R by (field; lra).
    apply sqrt_1.
  - replace (s_lt (s_sqrt (sumsq r)) s_eps) with true
      by (symmetry; by apply Rltb_true).
    simpl s_div. rewrite sumsq_scale by lra.
    rewrite sqrt_div_alt by nra.
    rewrite sqrt_square by lra. done.
Qed.

End Exact.

(** ** The index of each row *)

Section IndexOfRow.
Context {T : Type} `{Scalar T}.
Implicit Types (q : Quantizer T) (z : Tensor T).

(** The index at flat position [p] is [argmin] of the row of [d] that
    belongs to row [p] of [z.view(-1, embed_dim)]. *)
Lemma quantize_index_row q z z_q loss ix (p : nat) (r : list T) :
  quantize q z = Some (z_q, loss, ix) ->
  rows (embed_dim q) (data z) !! p = Some r ->
  idata ix !! p =
    Some (argmin (distances (map (norm q) (weight q)) (norm q r))) /\
  distances (map (norm q) (weight q)) (norm q r) <> [].
Proof.
  intros Hq Hr.
  apply quantize_inv in Hq as (_ & _ & Hw & _ & _ & _ & _ & ->).
  simpl. unfold indices_of. split.
  - change map with (@fmap list _). rewrite !list_lookup_fmap, Hr. done.
  - unfold distances. destruct (weight q); [done|]. done.
Qed.

Lemma quantize_index_first_min q z z_q loss ix (p : nat) (r : list T) :
  less_order -> wf_quantizer q ->
  quantize q z = Some (z_q, loss, ix) ->
  rows (embed_dim q) (data z) !! p = Some r ->
  let d := distances (map (norm q) (weight q)) (norm q r) in
  exists k v,
    idata ix !! p = Some k /\ k < n_embed q /\ d !! k = Some v /\
    (forall n x, d !! n = Some x -> less x v = false) /\
    (forall n x, n < k -> d !! n = Some x -> less v x = true).
Proof.
  intros Hless Hwf Hq Hr d.
  destruct (quantize_index_row q z z_q loss ix p r Hq Hr) as [Hk Hd].
  destruct (argmin_spec Hless d Hd) as (v & Hv & Hmin & Hfirst).
  exists (argmin d), v. split_and!; [done| |done|done|done].
  apply lookup_lt_Some in Hv. subst d.
  rewrite length_distances, length_map in Hv. by destruct Hwf as [<- _].
Qed.

End IndexOfRow.

(** C2, as amended.  For every input row, the returned index is the first
    argmin over all [n] in [[0, n_embed)] of the computed
    [d_n = ||zhat||^2 + ||e_n||^2 - 2 * (zhat . e_n)], for the normalised
    input row [zhat] and the normalised codebook rows [e_n], in the order of
    the tensor's arithmetic.  In exact arithmetic [d_n] is the squared
    Euclidean distance of [zhat] and [e_n], and the index is that of a
    codebook entry nearest to the input row. *)
Theorem quantize_index_argmin :
  (forall (T : Type) (S : Scalar T) (q : Quantizer T) (z : Tensor T),
     less_order -> wf_quantizer q -> fits q z ->
     0 < embed_dim q -> 0 < n_embed q ->
     exists z_q loss ix,
       quantize q z = Some (z_q, loss, ix) /\
       forall p r,
         rows (embed_dim q) (data z) !! p = Some r ->
         let d := distances (map (norm q) (weight q)) (norm q r) in
         exists k v,
           idata ix !! p = Some k /\ k < n_embed q /\ d !! k = Some v /\
           (forall n x, d !! n = Some x -> less x v = false) /\
           (forall n x, n < k -> d !! n = Some x -> less v x = true)) /\
  (forall (q : Quantizer R) (z : Tensor R),
     wf_quantizer q -> fits q z -> 0 < embed_dim q -> 0 < n_embed q ->
     exists z_q loss ix,
       quantize q z = Some (z_q, loss, ix) /\
       forall p r,
         rows (embed_dim q) (data z) !! p = Some r ->
         exists k e_k,
           idata ix !! p = Some k /\ weight q !! k = Some e_k /\
           forall n e, weight q !! n = Some e ->
             distances (map (norm q) (weight q)) (norm q r) !! n
               = Some (sqdist (norm q r) (norm q e)) /\
             (sqdist (norm q r) (norm q e_k)
              <= sqdist (norm q r) (norm q e))%R).
Proof.
  split.
  - intros T S q z Hless Hwf [Hz Hc] HD HN.
    destruct (quantize_returns q z Hwf Hz Hc HD HN) as (z_q & loss & ix & Hq).
    exists z_q, loss, ix. split; [done|]. intros p r Hr.
    by eapply quantize_index_first_min.
  - intros q z Hwf [Hz Hc] HD HN.
    destruct (quantize_returns q z Hwf Hz Hc HD HN) as (z_q & loss & ix & Hq).
    exists z_q, loss, ix. split; [done|]. intros p r Hr.
    destruct (quantize_index_first_min q z z_q loss ix p r
                R_less_order Hwf Hq Hr) as (k & v & Hk & Hkn & Hv & Hmin & _).
    pose proof Hwf as [Hn Hrows].
    destruct (lookup_lt_is_Some_2 (weight q) k) as [e_k He]; [lia|].
    assert (length r = embed_dim q) as Hlr.
    { pose proof (quantize_inv q z z_q loss ix Hq) as (_ & Hmod & _).
      pose proof (Forall_length_rows (embed_dim q) (data z) HD Hmod) as Hall.
      by apply (Forall_lookup_1 _ _ _ _ Hall Hr). }
    assert (forall n e, weight q !! n = Some e ->
              distances (map (norm q) (weight q)) (norm q r) !! n
              = Some (sqdist (norm q r) (norm q e))) as Hd.
    { intros n e Hne. unfold distances.
      change map with (@fmap list _). rewrite !list_lookup_fmap, Hne. simpl.
      f_equal. apply distance_expand. rewrite !length_norm, Hlr.
      symmetry. by apply (Forall_lookup_1 _ _ _ _ Hrows Hne). }
    exists k, e_k. split_and!; [done|done|].
    intros n e Hne. split; [by apply Hd|].
    pose proof (Hd k e_k He) as Hdk. rewrite Hv in Hdk. injection Hdk as ->.
    specialize (Hmin n _ (Hd n e Hne)). unfold less in Hmin. simpl in Hmin.
    by apply Rltb_false in Hmin.
Qed.

(** C4, as amended.  The straight-through line replaces the quantized
    tensor [z_q] by [z + (z_q - z)], computed element by element in the
    arithmetic of the tensor, and changes neither the loss nor the indices.
    In exact arithmetic this value is [z_q], so that [forward] returns the
    same with [straight_through] true and false. *)
Theorem straight_through_values :
  (forall (T : Type) (S : Scalar T) (q : Quantizer T) (z : Tensor T),
     forward (set_straight_through true q) z =
     match forward (set_straight_through false q) z with
     | None => None
     | Some (z_q, loss, ix) =>
         Some (straight_through_estimator z z_q, loss, ix)
     end) /\
  (forall (q : Quantizer R) (z : Tensor R),
     wf_quantizer q ->
     forward (set_straight_through true q) z =
     forward (set_straight_through false q) z).
Proof.
  split.
  - intros T S q z. apply forward_straight_through.
  - intros q z Hwf. rewrite forward_straight_through.
    destruct (forward (set_straight_through false q) z)
      as [[[z_q loss] ix]|] eqn:Hf; [|done].
    unfold forward in Hf.
    rewrite forward_branches_set_straight_through in Hf. simpl in Hf.
    destruct (forward_branches q z) as [[[z_q' loss'] ix']|] eqn:Hb; [|done].
    injection Hf as <- <- <-.
    destruct (forward_branches_shape q z _ _ _ Hwf Hb) as [Hs Hlen].
    by rewrite straight_through_estimator_exact.
Qed.

(** C8, as amended.  In exact arithmetic, with [use_norm], every vector of
    the last dimension of the first component of [quantize] has Euclidean
    norm one provided the norm of the selected codebook row is at least the
    [eps = 1e-12] of [F.normalize]; a selected row of smaller norm comes out
    with its norm divided by [eps]. *)
Theorem quantize_unit_norm (q : Quantizer R) (z : Tensor R) :
  wf_quantizer q -> fits q z -> 0 < embed_dim q -> 0 < n_embed q ->
  use_norm q = true ->
  exists z_q loss ix,
    quantize q z = Some (z_q, loss, ix) /\
    forall i j, i < nb z -> j < nt z ->
      exists k e,
        index_at (nt z) ix i j = Some k /\ weight q !! k = Some e /\
        ((s_eps <= sqrt (sumsq e) -> sqrt (sumsq (vec_at z_q i j)) = 1) /\
         (sqrt (sumsq e) < s_eps ->
          sqrt (sumsq (vec_at z_q i j)) = sqrt (sumsq e) / s_eps))%R.
Proof.
  intros Hwf [Hz Hc] HD HN Hnorm.
  destruct (quantize_returns q z Hwf Hz Hc HD HN) as (z_q & loss & ix & Hq).
  exists z_q, loss, ix. split; [done|]. intros i j Hi Hj.
  destruct (quantize_vec_at q z z_q loss ix i j Hwf Hq Hi Hj)
    as (k & e & Hk & _ & He & Hvec).
  exists k, e. split; [done|]. split; [done|].
  rewrite Hvec. unfold norm. rewrite Hnorm. apply normalize_norm.
Qed.

(** ** What [forward] writes *)

Section Frame.
Context {T : Type} `{Scalar T}.
Implicit Types (s : store T) (x y z : TensorRef) (l : loc).

Lemma frames_ret {A : Type} (s0 : store T) (a : A) (P : A -> Prop) :
  P a -> frames s0 (ret a) P.
Proof. intros Ha s Hs. split; [done|]. by intros a' [= <-]. Qed.

Lemma frames_raise {A : Type} (s0 : store T) (P : A -> Prop) : frames s0 raise P.
Proof. intros s Hs. split; [done|]. by intros a. Qed.

Lemma frames_bind {A B : Type} (s0 : store T) (m : M A) (f : A -> M B)
    (P : A -> Prop) (Q : B -> Prop) :
  frames s0 m P -> (forall a, P a -> frames s0 (f a) Q) ->
  frames s0 (bind m f) Q.
Proof.
  intros Hm Hf s Hs. unfold bind.
  destruct (Hm s Hs) as [Hs1 Ha].
  destruct (m s) as [[a|] s1]; simpl in *.
  - apply Hf; [by apply Ha|done].
  - split; [done|]. by intros b.
Qed.

Lemma frames_weaken {A : Type} (s0 : store T) (m : M A) (P Q : A -> Prop) :
  frames s0 m P -> (forall a, P a -> Q a) -> frames s0 m Q.
Proof.
  intros Hm HPQ s Hs. destruct (Hm s Hs) as [Hs1 Ha].
  split; [done|]. intros a Hma. by apply HPQ, Ha.
Qed.

Lemma frames_load (s0 : store T) l : frames s0 (load l) (fun _ => True).
Proof. intros s Hs. split; [done|]. by intros a. Qed.

Lemma frames_alloc (s0 : store T) (v : list T) :
  frames s0 (alloc v) (fun l => s0 !! l = None).
Proof.
  intros s Hs. unfold alloc. simpl.
  assert (s !! fresh (dom s) = None) as Hfresh
    by apply (not_elem_of_dom_1 s), is_fresh.
  assert (s0 !! fresh (dom s) = None) as Hfresh0
    by (eapply lookup_weaken_None; [exact Hfresh|exact Hs]).
  split.
  - by apply insert_subseteq_r.
  - by intros a [= <-].
Qed.

Lemma frames_update (s0 : store T) l (v : list T) :
  s0 !! l = None -> frames s0 (update l v) (fun _ => True).
Proof.
  intros Hl s Hs. unfold update. simpl.
  split; [|done]. by apply insert_subseteq_r.
Qed.

Lemma frames_clone (s0 : store T) x : frames s0 (clone x) (new_in s0).
Proof.
  unfold clone. eapply frames_bind; [apply frames_load|]. intros v _.
  eapply frames_bind; [apply frames_alloc|]. intros l Hl.
  by apply frames_ret.
Qed.

Lemma frames_zeros_like (s0 : store T) x : frames s0 (zeros_like x) (new_in s0).
Proof.
  unfold zeros_like. eapply frames_bind; [apply frames_load|]. intros v _.
  eapply frames_bind; [apply frames_alloc|]. intros l Hl.
  by apply frames_ret.
Qed.

Lemma frames_sub_ (s0 : store T) x y :
  new_in s0 x -> frames s0 (sub_ x y) (fun _ => True).
Proof.
  intros Hx. unfold sub_.
  eapply frames_bind; [apply frames_load|]. intros vx _.
  eapply frames_bind; [apply frames_load|]. intros vy _.
  by apply frames_update.
Qed.

Lemma frames_add_ (s0 : store T) x y :
  new_in s0 x -> frames s0 (add_ x y) (fun _ => True).
Proof.
  intros Hx. unfold add_.
  eapply frames_bind; [apply frames_load|]. intros vx _.
  eapply frames_bind; [apply frames_load|]. intros vy _.
  by apply frames_update.
Qed.

Lemma frames_sub_new (s0 : store T) x y : frames s0 (sub_new x y) (new_in s0).
Proof.
  unfold sub_new.
  eapply frames_bind; [apply frames_load|]. intros vx _.
  eapply frames_bind; [apply frames_load|]. intros vy _.
  eapply frames_bind; [apply frames_alloc|]. intros l Hl.
  by apply frames_ret.
Qed.

Lemma frames_add_new (s0 : store T) x y : frames s0 (add_new x y) (new_in s0).
Proof.
  unfold add_new.
  eapply frames_bind; [apply frames_load|]. intros vx _.
  eapply frames_bind; [apply frames_load|]. intros vy _.
  eapply frames_bind; [apply frames_alloc|]. intros l Hl.
  by apply frames_ret.
Qed.

Lemma frames_quantize_obj (s0 : store T) (q : Quantizer T) (lw : loc) z :
  frames s0 (quantize_obj q lw z) (fun o => new_in s0 o.1.1).
Proof.
  unfold quantize_obj.
  eapply frames_bind; [apply frames_load|]. intros zv _.
  eapply frames_bind; [apply frames_load|]. intros wv _.
  destruct (quantize _ _) as [[[z_q loss] ix]|]; [|apply frames_raise].
  eapply frames_bind; [apply frames_alloc|]. intros l Hl.
  by apply frames_ret.
Qed.

Lemma frames_residual_loop_obj (s0 : store T) (q : Quantizer T) (lw : loc) (k : nat) :
  forall residual z_q losses ixs,
    new_in s0 residual -> new_in s0 z_q ->
    frames s0 (residual_loop_obj q lw k residual z_q losses ixs)
      (fun _ => True).
Proof.
  induction k as [|k IH]; intros residual z_q losses ixs Hr Hq; simpl.
  - by apply frames_ret.
  - eapply frames_bind; [apply frames_clone|]. intros c _.
    eapply frames_bind; [apply frames_quantize_obj|].
    intros [[z_qi loss] indices] _.
    eapply frames_bind; [by apply frames_sub_|]. intros _ _.
    eapply frames_bind; [by apply frames_add_|]. intros _ _.
    by apply IH.
Qed.

Lemma frames_forward_branches_obj (s0 : store T) (q : Quantizer T) (lw : loc) z :
  frames s0 (forward_branches_obj q lw z) (fun o => new_in s0 o.1.1).
Proof.
  unfold forward_branches_obj. destruct (negb (use_residual q)).
  - apply frames_quantize_obj.
  - eapply frames_bind; [apply frames_zeros_like|]. intros z_q Hq.
    eapply frames_bind; [apply frames_clone|]. intros residual Hr.
    destruct (num_quantizers q) as [K|]; [|apply frames_raise].
    eapply frames_bind; [by apply frames_residual_loop_obj|].
    intros [losses ixs] _.
    destruct losses; [apply frames_raise|by apply frames_ret].
Qed.

(** [forward] writes to storages it has allocated itself only. *)
Lemma frames_forward_obj (s0 : store T) (q : Quantizer T) (lw : loc) z :
  frames s0 (forward_obj q lw z) (fun o => new_in s0 o.1.1).
Proof.
  unfold forward_obj.
  eapply frames_bind; [apply frames_forward_branches_obj|].
  intros [[z_q loss] ix] Hq. destruct (straight_through q).
  - eapply frames_bind; [apply frames_sub_new|]. intros t _.
    eapply frames_bind; [apply frames_add_new|]. intros z_q' Hq'.
    by apply frames_ret.
  - by apply frames_ret.
Qed.

End Frame.

(** C9.  [forward] mutates neither its input [z] nor [embedding.weight]:
    [sub_] and [add_] are applied to tensors that [forward] has allocated
    itself and the straight-through line builds a new tensor, so that after
    any call, returning or raising, every storage that existed before holds
    the values it held, the one of [z] and the one of the codebook among
    them, and the returned tensor is on a new storage. *)
Theorem forward_mutates_nothing {T : Type} `{Scalar T}
    (q : Quantizer T) (lw : loc) (z : TensorRef) (s : store T)
    (zv wv : list T) :
  s !! ref_loc z = Some zv -> s !! lw = Some wv ->
  (forward_obj q lw z s).2 !! ref_loc z = Some zv /\
  (forward_obj q lw z s).2 !! lw = Some wv /\
  s ⊆ (forward_obj q lw z s).2 /\
  forall z_q loss ix,
    (forward_obj q lw z s).1 = Some (z_q, loss, ix) ->
    ref_loc z_q <> ref_loc z /\ ref_loc z_q <> lw.
Proof.
  intros Hz Hw.
  destruct (frames_forward_obj s q lw z s) as [Hsub Hnew]; [done|].
  split_and!.
  - by eapply lookup_weaken.
  - by eapply lookup_weaken.
  - done.
  - intros z_q loss ix Hr. specialize (Hnew _ Hr). unfold new_in in Hnew.
    simpl in Hnew. split; intros Heq; rewrite Heq in Hnew; congruence.
Qed.

(** ** Objects and values *)

Section Run.
Context {T : Type} `{Scalar T}.
Implicit Types (s : store T) (x y z : TensorRef) (q : Quantizer T).

Lemma fresh_lookup s : s !! fresh (dom s) = None.
Proof. apply (not_elem_of_dom_1 s), is_fresh. Qed.

Lemma fresh_ne s (l : loc) (v : list T) :
  s !! l = Some v -> fresh (dom s) <> l.
Proof. intros Hl Heq. rewrite <-Heq, fresh_lookup in Hl. done. Qed.

Lemma run_clone s x (v : list T) :
  s !! ref_loc x = Some v ->
  clone x s = (Some (like x (fresh (dom s))), <[fresh (dom s) := v]> s).
Proof. intros Hx. unfold clone, bind, load, alloc, ret. by rewrite Hx. Qed.

Lemma run_zeros_like s x (v : list T) :
  s !! ref_loc x = Some v ->
  zeros_like x s =
    (Some (like x (fresh (dom s))),
     <[fresh (dom s) := replicate (length v) s_zero]> s).
Proof.
  intros Hx. unfold zeros_like, bind, load, alloc, ret. by rewrite Hx.
Qed.

Lemma run_sub_ s x y (vx vy : list T) :
  s !! ref_loc x = Some vx -> s !! ref_loc y = Some vy ->
  sub_ x y s = (Some tt, <[ref_loc x := zip_with s_sub vx vy]> s).
Proof.
  intros Hx Hy. unfold sub_, bind, load, update. by rewrite Hx, Hy.
Qed.

Lemma run_add_ s x y (vx vy : list T) :
  s !! ref_loc x = Some vx -> s !! ref_loc y = Some vy ->
  add_ x y s = (Some tt, <[ref_loc x := zip_with s_add vx vy]> s).
Proof.
  intros Hx Hy. unfold add_, bind, load, update. by rewrite Hx, Hy.
Qed.

Lemma run_sub_new s x y (vx vy : list T) :
  s !! ref_loc x = Some vx -> s !! ref_loc y = Some vy ->
  sub_new x y s =
    (Some (like x (fresh (dom s))),
     <[fresh (dom s) := zip_with s_sub vx vy]> s).
Proof.
  intros Hx Hy. unfold sub_new, bind, load, alloc, ret. by rewrite Hx, Hy.
Qed.

Lemma run_add_new s x y (vx vy : list T) :
  s !! ref_loc x = Some vx -> s !! ref_loc y = Some vy ->
  add_new x y s =
    (Some (like x (fresh (dom s))),
     <[fresh (dom s) := zip_with s_add vx vy]> s).
Proof.
  intros Hx Hy. unfold add_new, bind, load, alloc, ret. by rewrite Hx, Hy.
Qed.

(** [quantize] on objects computes [quantize] on their values and puts
    the quantized tensor on a new storage. *)
Lemma run_quantize_obj s q (lw : loc) z (zv wv : list T) :
  s !! ref_loc z = Some zv -> s !! lw = Some wv ->
  quantize_obj q lw z s =
    match quantize (with_weight q (rows (embed_dim q) wv)) (value_of z zv)
    with
    | None => (None, s)
    | Some (z_q, loss, ix) =>
        (Some (like z (fresh (dom s)), loss, ix),
         <[fresh (dom s) := data z_q]> s)
    end.
Proof.
  intros Hz Hw. unfold quantize_obj, bind, load. rewrite Hz, Hw.
  destruct (quantize _ _) as [[[z_q loss] ix]|]; done.
Qed.

End Run.

Section Agreement.
Context {T : Type} `{Scalar T}.
Implicit Types (s : store T) (x y z : TensorRef) (q : Quantizer T).

(** One turn of the loop on objects. *)
Lemma run_residual_loop_obj_S q (lw : loc) (wv : list T) (k : nat)
    residual z_q losses ixs s (rv av : list T) :
  s !! lw = Some wv ->
  s !! ref_loc residual = Some rv -> s !! ref_loc z_q = Some av ->
  ref_loc residual <> ref_loc z_q ->
  residual_loop_obj q lw (S k) residual z_q losses ixs s =
    let s1 := <[fresh (dom s) := rv]> s in
    match quantize (with_weight q (rows (embed_dim q) wv))
            (value_of residual rv) with
    | None => (None, s1)
    | Some (z_qi, loss, indices) =>
        let s2 := <[fresh (dom s1) := data z_qi]> s1 in
        let s3 :=
          <[ref_loc residual := zip_with s_sub rv (data z_qi)]> s2 in
        let s4 := <[ref_loc z_q := zip_with s_add av (data z_qi)]> s3 in
        residual_loop_obj q lw k residual z_q
          (losses ++ [loss]) (ixs ++ [indices]) s4
    end.
Proof.
  intros Hw Hr Ha Hra. simpl.
  set (l1 := fresh (dom s)). set (s1 := <[l1 := rv]> s).
  assert (l1 <> lw) as H1w by (by eapply fresh_ne).
  assert (l1 <> ref_loc residual) as H1r by (by eapply fresh_ne).
  assert (l1 <> ref_loc z_q) as H1a by (by eapply fresh_ne).
  assert (s1 !! lw = Some wv) as Hw1
    by (subst s1; by rewrite lookup_insert_ne).
  assert (s1 !! ref_loc residual = Some rv) as Hr1
    by (subst s1; by rewrite lookup_insert_ne).
  assert (s1 !! ref_loc z_q = Some av) as Ha1
    by (subst s1; by rewrite lookup_insert_ne).
  unfold bind at 1. rewrite (run_clone s residual rv) by done.
  fold l1 s1. unfold bind at 1.
  rewrite (run_quantize_obj s1 q lw (like residual l1) rv wv).
  2:{ subst s1. simpl. by rewrite lookup_insert_eq. }
  2:{ done. }
  change (value_of (like residual l1) rv) with (value_of residual rv).
  destruct (quantize _ (value_of residual rv))
    as [[[z_qi loss] indices]|] eqn:Hq; [|done].
  set (l2 := fresh (dom s1)). set (s2 := <[l2 := data z_qi]> s1).
  assert (l2 <> ref_loc residual) as H2r by (by eapply fresh_ne).
  assert (l2 <> ref_loc z_q) as H2a by (by eapply fresh_ne).
  unfold bind at 1.
  rewrite (run_sub_ s2 residual (like (like residual l1) l2) rv
             (data z_qi)).
  2:{ subst s2. by rewrite lookup_insert_ne. }
  2:{ subst s2. simpl. by rewrite lookup_insert_eq. }
  unfold bind at 1.
  rewrite (run_add_ _ z_q (like (like residual l1) l2) av (data z_qi)).
  2:{ subst s2. by rewrite !lookup_insert_ne. }
  2:{ subst s2. simpl. by rewrite lookup_insert_ne, lookup_insert_eq. }
  done.
Qed.

(** The loop on objects follows the loop on values: the storage of [z_q]
    holds the value of the accumulator. *)
Lemma run_residual_loop_obj q (lw : loc) (wv : list T) (k : nat) :
  forall residual z_q losses ixs s (rv av : list T),
    s !! lw = Some wv ->
    s !! ref_loc residual = Some rv -> s !! ref_loc z_q = Some av ->
    ref_loc residual <> ref_loc z_q ->
    ref_loc residual <> lw -> ref_loc z_q <> lw ->
    match residual_loop (with_weight q (rows (embed_dim q) wv)) k
            (value_of residual rv) (value_of z_q av) losses ixs with
    | None => (residual_loop_obj q lw k residual z_q losses ixs s).1 = None
    | Some (r', a', losses', ixs') =>
        (residual_loop_obj q lw k residual z_q losses ixs s).1
          = Some (losses', ixs') /\
        (residual_loop_obj q lw k residual z_q losses ixs s).2
          !! ref_loc z_q = Some (data a') /\
        a' = value_of z_q (data a')
    end.
Proof.
  induction k as [|k IH];
    intros residual z_q losses ixs s rv av Hw Hr Ha Hra Hrw Haw.
  - simpl. done.
  - rewrite (run_residual_loop_obj_S q lw wv k residual z_q losses ixs s
               rv av) by done.
    cbn zeta. simpl residual_loop.
    destruct (quantize _ (value_of residual rv))
      as [[[z_qi loss] indices]|] eqn:Hq; [|done].
    assert (fresh (dom s) <> lw) as H1w by (by eapply fresh_ne).
    set (s1 := <[fresh (dom s) := rv]> s) in *.
    assert (s1 !! lw = Some wv) as Hw1
      by (subst s1; by rewrite lookup_insert_ne).
    assert (fresh (dom s1) <> lw) as H2w by (by eapply fresh_ne).
    apply (IH residual z_q (losses ++ [loss]) (ixs ++ [indices]) _
             (zip_with s_sub rv (data z_qi))
             (zip_with s_add av (data z_qi))); try done.
    + by rewrite !lookup_insert_ne.
    + by rewrite lookup_insert_ne, lookup_insert_eq.
    + by rewrite lookup_insert_eq.
Qed.

(** The residual branch on objects, up to its loop. *)
Lemma run_forward_branches_obj_residual q (lw : loc) z s (zv : list T) :
  s !! ref_loc z = Some zv -> use_residual q = true ->
  forward_branches_obj q lw z s =
    let lq := fresh (dom s) in
    let s1 := <[lq := replicate (length zv) s_zero]> s in
    let lr := fresh (dom s1) in
    let s2 := <[lr := zv]> s1 in
    match num_quantizers q with
    | None => (None, s2)
    | Some K =>
        match residual_loop_obj q lw (Z.to_nat K) (like z lr) (like z lq)
                [] [] s2 with
        | (Some ([], _), s3) => (None, s3)
        | (Some (losses, ixs), s3) =>
            (Some (like z lq, tmean losses,
                   stack_indices (ref_nb z) (ref_nt z) ixs), s3)
        | (None, s3) => (None, s3)
        end
    end.
Proof.
  intros Hz Hres. unfold forward_branches_obj. rewrite Hres.
  change (negb true) with false. cbn iota zeta beta.
  unfold bind at 1. rewrite (run_zeros_like s z zv) by done.
  set (lq := fresh (dom s)).
  set (s1 := <[lq := replicate (length zv) s_zero]> s).
  assert (lq <> ref_loc z) as Hqz by (by eapply fresh_ne).
  assert (s1 !! ref_loc z = Some zv) as Hz1
    by (subst s1; by rewrite lookup_insert_ne).
  unfold bind at 1. unfold detach.
  rewrite (run_clone s1 z zv) by done.
  destruct (num_quantizers q) as [K|]; [|done].
  unfold bind.
  destruct (residual_loop_obj _ _ _ _ _ _ _ _) as [[[losses ixs]|] s3];
    [|done].
  by destruct losses.
Qed.

Lemma run_forward_branches_obj q (lw : loc) z s (zv wv : list T) :
  s !! ref_loc z = Some zv -> s !! lw = Some wv ->
  match forward_branches (with_weight q (rows (embed_dim q) wv))
          (value_of z zv) with
  | None => (forward_branches_obj q lw z s).1 = None
  | Some (t, loss, ix) =>
      exists x,
        (forward_branches_obj q lw z s).1 = Some (x, loss, ix) /\
        (forward_branches_obj q lw z s).2 !! ref_loc x = Some (data t) /\
        t = value_of x (data t)
  end.
Proof.
  intros Hz Hw. unfold forward_branches.
  change (use_residual (with_weight q (rows (embed_dim q) wv)))
    with (use_residual q).
  change (num_quantizers (with_weight q (rows (embed_dim q) wv)))
    with (num_quantizers q).
  destruct (use_residual q) eqn:Hres; unfold negb; cbn iota.
  - rewrite (run_forward_branches_obj_residual q lw z s zv) by done.
    cbn zeta.
    set (lq := fresh (dom s)).
    set (s1 := <[lq := replicate (length zv) s_zero]> s).
    set (lr := fresh (dom s1)). set (s2 := <[lr := zv]> s1).
    assert (lq <> lw) as Hqw by (by eapply fresh_ne).
    assert (lr <> lq) as Hrq.
    { eapply (fresh_ne s1). subst s1. by rewrite lookup_insert_eq. }
    assert (lr <> lw) as Hrw.
    { eapply (fresh_ne s1). subst s1. by rewrite lookup_insert_ne. }
    destruct (num_quantizers q) as [K|]; [|done].
    pose proof (run_residual_loop_obj q lw wv (Z.to_nat K)
                  (like z lr) (like z lq) [] [] s2 zv
                  (replicate (length zv) s_zero)) as Hloop.
    change (value_of (like z lr) zv) with (value_of z zv) in Hloop.
    change (value_of (like z lq) (replicate (length zv) s_zero))
      with (tzeros_like (value_of z zv)) in Hloop.
    assert (s2 !! lw = Some wv) as Hw2
      by (subst s2 s1; by rewrite !lookup_insert_ne).
    assert (s2 !! lr = Some zv) as Hr2
      by (subst s2; by rewrite lookup_insert_eq).
    assert (s2 !! lq = Some (replicate (length zv) s_zero)) as Hq2.
    { subst s2 s1. by rewrite lookup_insert_ne, lookup_insert_eq. }
    specialize (Hloop Hw2 Hr2 Hq2 Hrq Hrw Hqw).
    destruct (residual_loop _ _ (value_of z zv) _ [] [])
      as [[[[r' a'] losses'] ixs']|].
    + destruct Hloop as (Hres' & Hval & Ha').
      destruct (residual_loop_obj _ _ _ _ _ _ _ s2) as [res s3].
      simpl in Hres', Hval. rewrite Hres'.
      destruct losses' as [|l losses']; [done|].
      exists (like z lq). simpl. done.
    + destruct (residual_loop_obj _ _ _ _ _ _ _ s2) as [res s3].
      simpl in Hloop. by rewrite Hloop.
  - unfold forward_branches_obj. rewrite Hres.
    change (negb false) with true. cbn iota.
    rewrite (run_quantize_obj s q lw z zv wv) by done.
    destruct (quantize _ (value_of z zv)) as [[[t loss] ix]|] eqn:Hq;
      [|done].
    exists (like z (fresh (dom s))). simpl. rewrite lookup_insert_eq.
    split_and!; [done|done|].
    by apply quantize_inv in Hq as (_ & _ & _ & _ & _ & -> & _).
Qed.

(** [forward] on objects returns a tensor that holds the value [forward]
    computes from the values of [z] and of the weight, with the same loss
    and indices, and raises when [forward] on values does. *)
Lemma run_forward_obj q (lw : loc) z s (zv wv : list T) :
  s !! ref_loc z = Some zv -> s !! lw = Some wv ->
  match forward (with_weight q (rows (embed_dim q) wv)) (value_of z zv) with
  | None => (forward_obj q lw z s).1 = None
  | Some (t, loss, ix) =>
      exists x,
        (forward_obj q lw z s).1 = Some (x, loss, ix) /\
        tensor_value (forward_obj q lw z s).2 x = Some t
  end.
Proof.
  intros Hz Hw.
  pose proof (run_forward_branches_obj q lw z s zv wv Hz Hw) as Hb.
  destruct (frames_forward_branches_obj s q lw z s) as [Hsub _]; [done|].
  destruct (forward_branches_obj q lw z s) as [res s1] eqn:Hfb.
  simpl in Hb, Hsub.
  assert (forward_obj q lw z s =
          match res with
          | None => (None, s1)
          | Some (x, loss, ix) =>
              if straight_through q then
                bind (sub_new x z) (fun t =>
                bind (add_new z t) (fun z_q' => ret (z_q', loss, ix))) s1
              else (Some (x, loss, ix), s1)
          end) as ->.
  { unfold forward_obj. unfold bind at 1. rewrite Hfb.
    destruct res as [[[x loss] ix]|]; [|done].
    by destruct (straight_through q). }
  unfold forward.
  change (straight_through (with_weight q (rows (embed_dim q) wv)))
    with (straight_through q).
  destruct (forward_branches _ (value_of z zv)) as [[[t loss] ix]|].
  - destruct Hb as (x & -> & Hval & Ht).
    assert (s1 !! ref_loc z = Some zv) as Hz1 by (by eapply lookup_weaken).
    destruct (straight_through q).
    + set (l3 := fresh (dom s1)).
      set (s3 := <[l3 := zip_with s_sub (data t) zv]> s1).
      assert (l3 <> ref_loc z) as H3z by (by eapply fresh_ne).
      assert (bind (sub_new x z) (fun t0 =>
              bind (add_new z t0) (fun z_q' => ret (z_q', loss, ix))) s1
              = (Some (like z (fresh (dom s3)), loss, ix),
                 <[fresh (dom s3) :=
                     zip_with s_add zv (zip_with s_sub (data t) zv)]> s3))
        as ->.
      { unfold bind at 1.
        rewrite (run_sub_new s1 x z (data t) zv) by done.
        fold l3 s3. unfold bind at 1.
        rewrite (run_add_new s3 z (like x l3) zv
                   (zip_with s_sub (data t) zv)).
        - done.
        - subst s3. by rewrite lookup_insert_ne.
        - subst s3. simpl. by rewrite lookup_insert_eq. }
      eexists. split; [done|]. unfold tensor_value. simpl.
      rewrite lookup_insert_eq. done.
    + exists x. split; [done|]. unfold tensor_value. simpl.
      rewrite Hval. by rewrite <-Ht.
  - by rewrite Hb.
Qed.

End Agreement.

(** ** Binary32 arithmetic *)

Section Binary32.

Lemma f32_eps_nearest :
  (Z.abs (9223372 * 10 ^ 12 - 2 ^ 63) * 2 < 10 ^ 12)%Z.
Proof. vm_compute. reflexivity. Qed.

Lemma f32_less_key (a b : f32) :
  less a b = true <-> lex_lt (f32_key a) (f32_key b).
Proof.
  unfold less, lex_lt. simpl s_isnan. simpl s_lt. unfold SFltb.
  destruct a as [sa|sa| |sa ma ea], b as [sb|sb| |sb mb eb];
    try destruct sa; try destruct sb; simpl;
    repeat match goal with
      | |- context [Z.compare ?x ?y] =>
          destruct (Z.compare_spec x y); subst; simpl
      | |- context [Pos.compare_cont Eq ?x ?y] =>
          change (Pos.compare_cont Eq x y) with (Pos.compare x y);
          destruct (Pos.compare_spec x y); subst; simpl
      end;
    (split; intros Hx; try discriminate; try reflexivity; lia).
Qed.

Lemma f32_less_key_false (a b : f32) :
  less a b = false <-> ~ lex_lt (f32_key a) (f32_key b).
Proof.
  rewrite <-f32_less_key.
  destruct (less a b); split; try done; intros Hn; by destruct Hn.
Qed.

(** The order of [torch.argmin] on binary32 numbers is a strict weak
    order. *)
Lemma f32_less_order : @less_order f32 f32_scalar.
Proof.
  split.
  - intros a. apply f32_less_key_false. unfold lex_lt. lia.
  - intros a b c. rewrite !f32_less_key. unfold lex_lt. lia.
  - intros a b c. rewrite !f32_less_key_false. unfold lex_lt. lia.
Qed.

End Binary32.

(** ** The constructors *)

Section Constructors.
Import Py.

(** X7.  [VectorQuantizer(embed_dim, n_embed, ...)] returns an object
    for every non-negative [embed_dim] and positive [n_embed], and its
    [straight_through] is true, whatever the keyword arguments hold. *)
Lemma VectorQuantizer_init_returns (embed_dim n_embed : Z)
    (beta use_norm use_residual num_quantizers : pyval)
    (kwargs : list (string * pyval)) :
  (0 <= embed_dim)%Z -> (0 < n_embed)%Z ->
  exists self,
    construct (VectorQuantizer_init (PyInt embed_dim) (PyInt n_embed) beta
                 use_norm use_residual num_quantizers kwargs) = inr self /\
    self !! "straight_through"%string = Some (PyBool true) /\
    self !! "n_embed"%string = Some (PyInt n_embed) /\
    self !! "embed_dim"%string = Some (PyInt embed_dim).
Proof.
  intros Hd Hn.
  assert (match construct
                  (VectorQuantizer_init (PyInt embed_dim) (PyInt n_embed)
                     beta use_norm use_residual num_quantizers kwargs) with
          | inr self =>
              self !! "straight_through"%string = Some (PyBool true) /\
              self !! "n_embed"%string = Some (PyInt n_embed) /\
              self !! "embed_dim"%string = Some (PyInt embed_dim)
          | inl _ => False
          end) as Hrun.
  { destruct n_embed as [|n|n]; try lia.
    destruct embed_dim as [|d|d]; try lia;
      vm_compute; split_and!; reflexivity. }
  destruct (construct _) as [e|self]; [done|].
  exists self. split; [reflexivity|exact Hrun].
Qed.

End Constructors.

(** C5.  Constructing [GumbelQuantizer] raises for every [embed_dim] and
    [n_embed] and every other argument: line 101 reads the name
    [straight_through], which is neither a parameter of [__init__] nor
    bound by the module, and the call ends in [NameError]. *)
Theorem GumbelQuantizer_init_raises
    (embed_dim n_embed temp_init kl_weight use_norm use_residual
       num_quantizers : Py.pyval)
    (kwargs : list (string * Py.pyval)) :
  Py.construct
    (Py.GumbelQuantizer_init embed_dim n_embed temp_init kl_weight use_norm
       use_residual num_quantizers kwargs)
  = inl (Py.NameError "straight_through").
Proof. vm_compute. reflexivity. Qed.

(** ** Where rounding shows *)

Section Rounding.
Import Examples.

(** Against C4 as stated: for [VectorQuantizer(1, 1)] with the weight
    [[0.5]] and the input [[[-0.3]]], the quantized tensor is [[[1.0]]]
    before the straight-through line and [[[0.99999994]]] after it. *)
Lemma straight_through_changes_value :
  quantized (forward (set_straight_through false vq_1) z_m0_3)
    = Some [f_1] /\
  quantized (forward (set_straight_through true vq_1) z_m0_3)
    = Some [S754_finite false 16777215 (-24)] /\
  forward (set_straight_through true vq_1) z_m0_3
    <> forward (set_straight_through false vq_1) z_m0_3.
Proof. split_and!; [vm_compute; reflexivity..|vm_compute; discriminate]. Qed.

(** Against C3 as stated: with one residual stage on the same input,
    the stage returns [q_1 = [[[1.0]]]], the sum of the stages is
    [[[1.0]]], and [forward] returns [[[0.99999994]]]. *)
Lemma residual_sum_not_returned :
  wf_quantizer vq_1_residual /\ fits vq_1_residual z_m0_3 /\
  quantized (stage vq_1_residual z_m0_3 0) = Some [f_1] /\
  data (sum_stages z_m0_3 [mkTensor 1 1 1 [f_1]]) = [f_1] /\
  quantized (forward vq_1_residual z_m0_3)
    = Some [S754_finite false 16777215 (-24)] /\
  quantized (forward vq_1_residual z_m0_3)
    <> Some (data (sum_stages z_m0_3 [mkTensor 1 1 1 [f_1]])).
Proof.
  split_and!; try (vm_compute; reflexivity).
  - split; [reflexivity|repeat constructor].
  - split; reflexivity.
  - vm_compute. discriminate.
Qed.

Lemma f32_value_8194 : f32_value f_8194 = 8194%R.
Proof. unfold f32_value, f_8194. simpl. lra. Qed.

Lemma f32_value_8195 : f32_value f_8195 = 8195%R.
Proof. unfold f32_value, f_8195. simpl. lra. Qed.

(** Against C2 as stated: for the input [8194] and the codebook
    [8194, 8195] without normalisation, the computed entries of [d] are
    [0] and [-16] (squares and products above [2^24] are rounded), the
    returned index is 1, and the codebook entry at index 0 is nearer to the
    input: its squared distance is 0, that of the entry at index 1 is 1. *)
Lemma argmin_not_nearest :
  distances (weight vq_far) [f_8194]
    = [S754_zero false; S754_finite true 8388608 (-19)] /\
  (idata <$> (snd <$> quantize vq_far z_8194)) = Some [1] /\
  weight vq_far !! 0 = Some [f_8194] /\
  weight vq_far !! 1 = Some [f_8195] /\
  (@sqdist R _ [f32_value f_8194] [f32_value f_8194]
   < @sqdist R _ [f32_value f_8194] [f32_value f_8195])%R.
Proof.
  split_and!; [vm_compute; reflexivity..|].
  rewrite f32_value_8194, f32_value_8195.
  unfold sqdist, sumsq, tsum, sq. simpl. lra.
Qed.

Lemma f32_value_0_707 :
  f32_value f_0_707 = (11863283 / 16777216)%R.
Proof. unfold f32_value, f_0_707. simpl. lra. Qed.

(** Against C8 as stated.  In exact arithmetic, with the one codebook
    row [[1e-13]], which is not zero, the quantized vector is [[0.1]], of
    norm [0.1].  In binary32, with the one codebook row [[1, 1]], the
    quantized vector is [[0.70710677, 0.70710677]], whose norm is not
    one. *)
Lemma short_row_not_unit :
  (exists z_q loss ix,
     quantize vq_short z_one = Some (z_q, loss, ix) /\
     index_at 1 ix 0 0 = Some 0 /\
     weight vq_short !! 0 = Some [(/ 10 ^ 13)%R] /\
     sumsq [(/ 10 ^ 13)%R] <> 0%R /\
     sqrt (sumsq (vec_at z_q 0 0)) = (/ 10)%R /\
     sqrt (sumsq (vec_at z_q 0 0)) <> 1%R) /\
  (quantized (quantize vq_diag z_diag) = Some [f_0_707; f_0_707] /\
   sqrt (sumsq (map f32_value [f_0_707; f_0_707])) <> 1%R).
Proof.
  split.
  2:{ split; [vm_compute; reflexivity|].
      change (map f32_value [f_0_707; f_0_707])
        with [f32_value f_0_707; f32_value f_0_707].
      rewrite !sumsq_cons, f32_value_0_707.
      intros Hone.
      assert (sumsq (T:=R) [] = 0%R) as Hnil
        by (unfold sumsq, tsum; simpl; lra).
      rewrite Hnil in Hone.
      pose proof (sqrt_sqrt (11863283 / 16777216 * (11863283 / 16777216)
                             + (11863283 / 16777216
                                * (11863283 / 16777216) + 0))%R) as Hsq.
      rewrite Hone in Hsq. lra. }
  assert (wf_quantizer vq_short) as Hwf
    by (split; [reflexivity|repeat constructor]).
  destruct (quantize_returns vq_short z_one) as (z_q & loss & ix & Hq);
    [done|reflexivity|reflexivity|simpl; lia|simpl; lia|].
  destruct (quantize_vec_at vq_short z_one z_q loss ix 0 0 Hwf Hq)
    as (k & e & Hk & Hlt & He & Hvec); [simpl; lia|simpl; lia|].
  simpl in Hlt. assert (k = 0) as -> by lia.
  change (Some [(/ 10 ^ 13)%R] = Some e) in He.
  assert (e = [(/ 10 ^ 13)%R]) as -> by congruence.
  change (norm vq_short [(/ 10 ^ 13)%R])
    with (normalize [(/ 10 ^ 13)%R]) in Hvec.
  assert (sumsq [(/ 10 ^ 13)%R] = (/ 10 ^ 13 * / 10 ^ 13)%R) as Hss.
  { rewrite sumsq_cons. unfold sumsq, tsum. simpl. lra. }
  assert (0 < / 10 ^ 13)%R as Hpos.
  { apply Rinv_0_lt_compat. simpl. lra. }
  assert (sqrt (sumsq [(/ 10 ^ 13)%R]) = (/ 10 ^ 13)%R) as Hsqrt.
  { rewrite Hss. apply sqrt_square. lra. }
  assert (sqrt (sumsq (vec_at z_q 0 0)) = (/ 10)%R) as Hnorm.
  { rewrite Hvec.
    destruct (normalize_norm [(/ 10 ^ 13)%R]) as [_ Hshort].
    rewrite Hshort, Hsqrt.
    - simpl. field.
    - rewrite Hsqrt. simpl. apply Rinv_lt_contravar; lra. }
  exists z_q, loss, ix. split_and!; try done.
  - rewrite Hss. nra.
  - rewrite Hnorm. lra.
Qed.

(** Against C6 as stated.  [VectorQuantizer(2, 2, use_residual=True)]
    constructs, with [num_quantizers] left at its default [None], and
    [forward] raises on an input of shape [(1, 2, 2)]: [range(None)] is a
    type error. *)
Lemma forward_raises_unconfigured :
  (exists self,
     Py.construct
       (Py.VectorQuantizer_init (Py.PyInt 2) (Py.PyInt 2)
          (Py.PyFloat 25 (-2)) (Py.PyBool true) (Py.PyBool true)
          Py.PyNone []) = inr self /\
     self !! "use_residual"%string = Some (Py.PyBool true) /\
     self !! "num_quantizers"%string = Some Py.PyNone) /\
  use_residual Examples2.vq_2_unset = true /\
  num_quantizers Examples2.vq_2_unset = None /\
  n_embed Examples2.vq_2_unset = 2 /\
  embed_dim Examples2.vq_2_unset = 2 /\
  fits Examples2.vq_2_unset z_2 /\
  forward Examples2.vq_2_unset z_2 = None.
Proof.
  split.
  - assert (match Py.construct
                    (Py.VectorQuantizer_init (Py.PyInt 2) (Py.PyInt 2)
                       (Py.PyFloat 25 (-2)) (Py.PyBool true)
                       (Py.PyBool true) Py.PyNone []) with
            | inr self =>
                self !! "use_residual"%string = Some (Py.PyBool true) /\
                self !! "num_quantizers"%string = Some Py.PyNone
            | inl _ => False
            end) as Hrun by (vm_compute; split; reflexivity).
    destruct (Py.construct _) as [e|self]; [done|].
    exists self. split; [reflexivity|exact Hrun].
  - split_and!; try reflexivity. split; reflexivity.
Qed.

(** Against C7 as stated.  With [n_embed = 1], [embed_dim = 2], the
    codebook row [[1, 0]] and an input of shape [(1, 1, 4)], the logits
    are [[-2, 0]], viewed as two logits for the one position; [einsum]
    broadcasts the one codebook row, and when the sample of
    [F.gumbel_softmax] is the one-hot row of the larger logit the returned
    index is 1, which is not below [n_embed]. *)
Lemma gumbel_index_out_of_range :
  wf_quantizer Examples2.gq_one /\
  wf_tensor Examples2.z_wide /\
  n_embed Examples2.gq_one = 1 /\
  weight Examples2.gq_one !! 1 = None /\
  (forall (softmax : list f32 -> list f32) (log : f32 -> f32)
          (c_1e_10 kl_weight : f32),
     fmap (M:=option) idata
       (fmap (M:=option) snd
          (gumbel_quantize Examples2.hard_no_noise softmax log c_1e_10
             Examples2.gq_one false f_1 kl_weight None Examples2.z_wide))
     = Some [1]).
Proof.
  split_and!; [split; [reflexivity|repeat constructor]|reflexivity..|].
  intros softmax log c_1e_10 kl_weight. vm_compute. reflexivity.
Qed.

End Rounding.

(** ** The theorems at the example quantizers *)

Section Witnesses.
Import Examples.

Lemma wf_vq_2 : wf_quantizer vq_2.
Proof. split; [reflexivity|repeat constructor]. Defined.

Lemma wf_vq_2_residual : wf_quantizer vq_2_residual.
Proof. split; [reflexivity|repeat constructor]. Defined.

Lemma wf_vq_exact : wf_quantizer vq_exact.
Proof. split; [reflexivity|repeat constructor]. Defined.

Lemma fits_z_2 (q : Quantizer f32) : embed_dim q = 2 -> fits q z_2.
Proof. intros Hq. split; [reflexivity|]. by rewrite Hq. Defined.

Lemma fits_z_exact : fits vq_exact z_exact.
Proof. split; reflexivity. Defined.

Lemma hard_no_noise_keeps_shape : keeps_shape Examples2.hard_no_noise.
Proof.
  intros tau hard ls. unfold Examples2.hard_no_noise.
  induction ls as [|r ls IH]; simpl; constructor; [|exact IH].
  by rewrite length_insert, length_replicate.
Defined.

End Witnesses.

Lemma quantize_codebook_rows_witness :
  exists z_q loss ix,
    quantize Examples.vq_2 Examples.z_2 = Some (z_q, loss, ix) /\
    forall i j, i < 1 -> j < 2 ->
      exists k e,
        index_at 2 ix i j = Some k /\ k < 2 /\
        weight Examples.vq_2 !! k = Some e /\
        vec_at z_q i j = norm Examples.vq_2 e.
Proof.
  apply (quantize_codebook_rows Examples.vq_2 Examples.z_2).
  - exact wf_vq_2.
  - reflexivity.
  - reflexivity.
  - simpl. lia.
  - simpl. lia.
Defined.

Lemma quantize_index_argmin_witness :
  (exists z_q loss ix,
     quantize Examples.vq_2 Examples.z_2 = Some (z_q, loss, ix) /\
     forall p r,
       rows 2 (data Examples.z_2) !! p = Some r ->
       let d := distances (map (norm Examples.vq_2) (weight Examples.vq_2))
                  (norm Examples.vq_2 r) in
       exists k v,
         idata ix !! p = Some k /\ k < 2 /\ d !! k = Some v /\
         (forall n x, d !! n = Some x -> less x v = false) /\
         (forall n x, n < k -> d !! n = Some x -> less v x = true)) /\
  (exists z_q loss ix,
     quantize Examples.vq_exact Examples.z_exact = Some (z_q, loss, ix) /\
     forall p r,
       rows 2 (data Examples.z_exact) !! p = Some r ->
       exists k e_k,
         idata ix !! p = Some k /\
         weight Examples.vq_exact !! k = Some e_k /\
         forall n e, weight Examples.vq_exact !! n = Some e ->
           distances (map (norm Examples.vq_exact)
                        (weight Examples.vq_exact))
             (norm Examples.vq_exact r) !! n
             = Some (sqdist (norm Examples.vq_exact r)
                       (norm Examples.vq_exact e)) /\
           (sqdist (norm Examples.vq_exact r) (norm Examples.vq_exact e_k)
            <= sqdist (norm Examples.vq_exact r)
                 (norm Examples.vq_exact e))%R).
Proof.
  split.
  - apply (proj1 quantize_index_argmin f32 f32_scalar
             Examples.vq_2 Examples.z_2).
    + exact f32_less_order.
    + exact wf_vq_2.
    + apply fits_z_2. reflexivity.
    + simpl. lia.
    + simpl. lia.
  - apply (proj2 quantize_index_argmin Examples.vq_exact Examples.z_exact).
    + exact wf_vq_exact.
    + exact fits_z_exact.
    + simpl. lia.
    + simpl. lia.
Defined.

Lemma forward_residual_stages_witness :
  exists outs : list (Tensor f32 * f32 * IndexTensor),
    length outs = 2 /\
    (forall k, k < 2 ->
       stage Examples.vq_2_residual Examples.z_2 k = outs !! k) /\
    forward Examples.vq_2_residual Examples.z_2 =
      Some (straight_through_estimator Examples.z_2
              (sum_stages Examples.z_2 outs.*1.*1),
            tmean outs.*1.*2, stack_indices 1 2 outs.*2) /\
    ishape (stack_indices 1 2 outs.*2) = [1; 2; 2] /\
    forall p k ix_k,
      p < 1 * 2 -> outs.*2 !! k = Some ix_k ->
      idata (stack_indices 1 2 outs.*2) !! (p * 2 + k) = idata ix_k !! p.
Proof.
  apply (forward_residual_stages Examples.vq_2_residual Examples.z_2 2).
  - exact wf_vq_2_residual.
  - apply fits_z_2. reflexivity.
  - simpl. lia.
  - simpl. lia.
  - reflexivity.
  - reflexivity.
  - lia.
Defined.

Lemma straight_through_values_witness :
  forward (set_straight_through true Examples.vq_exact) Examples.z_exact =
  forward (set_straight_through false Examples.vq_exact) Examples.z_exact.
Proof.
  apply (proj2 straight_through_values Examples.vq_exact Examples.z_exact).
  exact wf_vq_exact.
Defined.

Lemma forward_returns_triple_witness :
  ((is_Some (forward Examples.vq_2 Examples.z_2) <->
    0 < 2 /\ 0 < 2 /\ (1 * 2 = 0 \/ 2 = 2) /\
    (false = true -> exists K, None = Some K /\ (0 < K)%Z)) /\
   (forall (z_q : Tensor f32) (loss : f32) (ix : IndexTensor),
      forward Examples.vq_2 Examples.z_2 = Some (z_q, loss, ix) ->
      same_shape z_q Examples.z_2 /\ wf_tensor z_q /\
      (false = false ->
       exists z_q',
         quantize Examples.vq_2 Examples.z_2 = Some (z_q', loss, ix) /\
         z_q = straight_through_estimator Examples.z_2 z_q'))) /\
  ((is_Some (forward Examples.vq_2_residual Examples.z_2) <->
    0 < 2 /\ 0 < 2 /\ (1 * 2 = 0 \/ 2 = 2) /\
    (true = true -> exists K, Some 2%Z = Some K /\ (0 < K)%Z)) /\
   (forall (z_q : Tensor f32) (loss : f32) (ix : IndexTensor),
      forward Examples.vq_2_residual Examples.z_2 = Some (z_q, loss, ix) ->
      same_shape z_q Examples.z_2 /\ wf_tensor z_q /\
      (true = false ->
       exists z_q',
         quantize Examples.vq_2_residual Examples.z_2
           = Some (z_q', loss, ix) /\
         z_q = straight_through_estimator Examples.z_2 z_q'))).
Proof.
  split.
  - apply (forward_returns_triple Examples.vq_2 Examples.z_2).
    + exact wf_vq_2.
    + reflexivity.
  - apply (forward_returns_triple Examples.vq_2_residual Examples.z_2).
    + exact wf_vq_2_residual.
    + reflexivity.
Defined.

Lemma encoding_indices_in_range_witness :
  (exists z_q loss ix,
     quantize Examples.vq_2 Examples.z_2 = Some (z_q, loss, ix) /\
     Forall (fun k => k < 2) (idata ix) /\
     Forall (fun k => is_Some (weight Examples.vq_2 !! k)) (idata ix)) /\
  (exists z_q loss ix,
     gumbel_quantize Examples2.hard_no_noise (fun r => r) (fun x => x)
       Examples.f_0_25 Examples.vq_2 false Examples.f_1 Examples.f_0_5 None
       Examples.z_2 = Some (z_q, loss, ix) /\
     Forall (fun k => k < 2) (idata ix) /\
     Forall (fun k => is_Some (weight Examples.vq_2 !! k)) (idata ix)).
Proof.
  destruct (encoding_indices_in_range Examples2.hard_no_noise (fun r => r)
              (fun x => x) Examples.f_0_25 Examples.vq_2 false Examples.f_1
              Examples.f_0_5 None Examples.z_2)
    as [Hvq Hgumbel]; [exact wf_vq_2|exact hard_no_noise_keeps_shape|].
  split.
  - destruct (quantize_returns Examples.vq_2 Examples.z_2)
      as (z_q & loss & ix & Hq);
      [exact wf_vq_2|reflexivity|reflexivity|simpl; lia|simpl; lia|].
    exists z_q, loss, ix. split; [exact Hq|]. exact (Hvq z_q loss ix Hq).
  - destruct (gumbel_quantize_returns Examples2.hard_no_noise (fun r => r)
                (fun x => x) Examples.f_0_25 Examples.vq_2 false
                Examples.f_1 Examples.f_0_5 None Examples.z_2)
      as [[[z_q loss] ix] Hq];
      [exact wf_vq_2|apply fits_z_2; reflexivity
      |simpl; lia|simpl; lia|simpl; lia|].
    exists z_q, loss, ix. split; [exact Hq|].
    apply (Hgumbel z_q loss ix Hq). left. apply fits_z_2. reflexivity.
Defined.

Lemma quantize_unit_norm_witness :
  exists z_q loss ix,
    quantize Examples.vq_exact Examples.z_exact = Some (z_q, loss, ix) /\
    forall i j, i < 1 -> j < 2 ->
      exists k e,
        index_at 2 ix i j = Some k /\
        weight Examples.vq_exact !! k = Some e /\
        ((s_eps <= sqrt (sumsq e) -> sqrt (sumsq (vec_at z_q i j)) = 1) /\
         (sqrt (sumsq e) < s_eps ->
          sqrt (sumsq (vec_at z_q i j)) = sqrt (sumsq e) / s_eps))%R.
Proof.
  apply (quantize_unit_norm Examples.vq_exact Examples.z_exact).
  - exact wf_vq_exact.
  - exact fits_z_exact.
  - simpl. lia.
  - simpl. lia.
  - reflexivity.
Defined.

Lemma forward_mutates_nothing_witness :
  (forward_obj Examples.vq_2_residual 1 Examples.z_ref Examples.memory).2
    !! 0 = Some (data Examples.z_2) /\
  (forward_obj Examples.vq_2_residual 1 Examples.z_ref Examples.memory).2
    !! 1 = Some [Examples.f_0_5; Examples.f_0_25;
                 Examples.f_m0_3; Examples.f_1] /\
  Examples.memory
    ⊆ (forward_obj Examples.vq_2_residual 1 Examples.z_ref
         Examples.memory).2 /\
  forall z_q loss ix,
    (forward_obj Examples.vq_2_residual 1 Examples.z_ref Examples.memory).1
      = Some (z_q, loss, ix) ->
    ref_loc z_q <> 0 /\ ref_loc z_q <> 1.
Proof.
  apply (forward_mutates_nothing Examples.vq_2_residual 1 Examples.z_ref
           Examples.memory).
  - reflexivity.
  - reflexivity.
Defined.

(** * Further properties of the methods *)

(** ** When [quantize] raises *)

(** X1.  [VectorQuantizer.quantize] returns exactly when [embed_dim] is
    positive, the codebook is not empty and the input is empty
    ([b * t = 0]) or its last dimension is [embed_dim]; in every other case
    it raises. *)
Theorem quantize_returns_iff {T : Type} `{Scalar T}
    (q : Quantizer T) (z : Tensor T) :
  wf_quantizer q -> wf_tensor z ->
  (is_Some (quantize q z) <->
   0 < embed_dim q /\ 0 < n_embed q /\
   (nb z * nt z = 0 \/ nc z = embed_dim q)).
Proof.
  intros Hwf Hz. split.
  - intros [[[z_q loss] ix] Hq].
    pose proof (quantize_inv q z z_q loss ix Hq) as (HD & _ & Hw & _).
    pose proof (quantize_data q z z_q loss ix Hwf Hq) as (_&_&_&Hc&_).
    destruct Hwf as [Hn _]. split_and!; [done| |].
    + destruct (weight q); [done|]. simpl in Hn. lia.
    + destruct (decide (nb z * nt z = 0)); [by left|right; apply Hc; lia].
  - intros (HD & HN & [Hbt|Hc]).
    + rewrite (quantize_empty q z); [done..| |done].
      unfold wf_tensor, numel in Hz. rewrite Hbt in Hz.
      by apply nil_length_inv.
    + destruct (quantize_returns q z Hwf Hz Hc HD HN) as (?&?&?&->). done.
Qed.

(** X2.  On an empty batch ([b * t = 0]) [VectorQuantizer.quantize]
    returns an empty quantized tensor and no indices, and its loss, the
    mean of no element, is NaN. *)
Theorem quantize_empty_batch (q : Quantizer f32) (z : Tensor f32) :
  wf_quantizer q -> wf_tensor z -> 0 < embed_dim q -> 0 < n_embed q ->
  nb z * nt z = 0 ->
  quantize q z =
    Some (mkTensor (nb z) (nt z) (nc z) [], S754_nan,
          mkIndex [nb z; nt z] []).
Proof.
  intros Hwf Hz HD HN Hbt. rewrite (quantize_empty q z); [done..| |done].
  unfold wf_tensor, numel in Hz. rewrite Hbt in Hz. by apply nil_length_inv.
Qed.

(** X3.  In residual mode [forward] raises on every input when
    [num_quantizers] is [None] (the default) or not positive: [range(None)]
    is a type error and [torch.stack] refuses an empty list. *)
Theorem forward_residual_misconfigured {T : Type} `{Scalar T}
    (q : Quantizer T) (z : Tensor T) :
  use_residual q = true ->
  (num_quantizers q = None \/
   exists K, num_quantizers q = Some K /\ (K <= 0)%Z) ->
  forward q z = None.
Proof.
  intros Hres HK. unfold forward, forward_branches. rewrite Hres. simpl.
  destruct HK as [->|(K & -> & HK)]; [done|].
  replace (Z.to_nat K) with 0 by lia. done.
Qed.

(** ** The indices [forward] returns *)

Section ForwardIndices.
Context {T : Type} `{Scalar T}.
Implicit Types (q : Quantizer T) (z r : Tensor T).

Lemma length_stack_last (xs : list (list nat)) (n : nat) :
  Forall (fun x => length x = n) xs ->
  length (stack_last xs n) = n * length xs.
Proof.
  intros Hxs. unfold stack_last.
  rewrite (length_join_same (length xs)).
  - by rewrite length_map, length_seq.
  - apply Forall_fmap, Forall_forall. intros p Hp. simpl.
    apply elem_of_seq in Hp. rewrite omap_lookup_total.
    + by rewrite length_map.
    + eapply Forall_impl; [exact Hxs|]. simpl. lia.
Qed.

Lemma Forall_stack_last (P : nat -> Prop) (xs : list (list nat)) (n : nat) :
  Forall (Forall P) xs -> Forall P (stack_last xs n).
Proof.
  intros Hxs. unfold stack_last. apply Forall_forall. intros v Hv.
  apply list_elem_of_join in Hv as (block & Hv & Hblock).
  apply list_elem_of_fmap in Hblock as (p & -> & _).
  apply list_elem_of_omap in Hv as (x & Hx & Hxp).
  apply (Forall_forall (Forall P) xs) in Hx; [|done].
  apply (Forall_forall P x); [done|]. by eapply list_elem_of_lookup_2.
Qed.

(** What a returning loop has appended to the list of index tensors. *)
Lemma residual_loop_indices q (k : nat) :
  forall r acc losses ixs r' acc' losses' ixs',
    wf_quantizer q ->
    residual_loop q k r acc losses ixs = Some (r', acc', losses', ixs') ->
    Forall (fun ix => length (idata ix) = nb r * nt r /\
                      Forall (fun i => i < n_embed q) (idata ix)) ixs ->
    Forall (fun ix => length (idata ix) = nb r * nt r /\
                      Forall (fun i => i < n_embed q) (idata ix)) ixs' /\
    length ixs' = length ixs + k /\ length losses' = length losses + k.
Proof.
  induction k as [|k IH];
    intros r acc losses ixs r' acc' losses' ixs' Hwf Hloop Hixs.
  - simpl in Hloop. injection Hloop as <- <- <- <-. split_and!; [done|lia..].
  - simpl in Hloop.
    destruct (quantize q r) as [[[q_1 l_1] i_1]|] eqn:Hq; [|done].
    destruct (quantize_data q r q_1 l_1 i_1 Hwf Hq) as (_ & Hlen & Hlt & _).
    apply IH in Hloop as (Hall & Hk & Hl); [|done|].
    + rewrite length_app in Hk, Hl. simpl in *. split_and!; [done|lia..].
    + simpl. apply Forall_app. split; [done|]. by constructor.
Qed.

End ForwardIndices.

(** X4.  Whenever [forward] returns, with or without [use_residual], every
    index it returns lies in [[0, n_embed)], and the index tensor has
    shape [(b, t)], or [(b, t, num_quantizers)] in residual mode, and as
    many entries as its shape says. *)
Theorem forward_indices {T : Type} `{Scalar T}
    (q : Quantizer T) (z z_q : Tensor T) (loss : T) (ix : IndexTensor) :
  wf_quantizer q ->
  forward q z = Some (z_q, loss, ix) ->
  Forall (fun i => i < n_embed q) (idata ix) /\
  length (idata ix) = shape_numel (ishape ix) /\
  (use_residual q = false -> ishape ix = [nb z; nt z]) /\
  (use_residual q = true ->
   exists K, num_quantizers q = Some K /\ (0 < K)%Z /\
             ishape ix = [nb z; nt z; Z.to_nat K]).
Proof.
  intros Hwf Hf. unfold forward in Hf.
  destruct (forward_branches q z) as [[[z_q' loss'] ix']|] eqn:Hb; [|done].
  injection Hf as _ _ <-. unfold forward_branches in Hb.
  destruct (use_residual q); simpl in Hb.
  - destruct (num_quantizers q) as [K|]; [|done].
    destruct (residual_loop q (Z.to_nat K) z (tzeros_like z) [] [])
      as [[[[r' acc'] losses'] ixs']|] eqn:Hloop; [|done].
    destruct (residual_loop_indices q _ _ _ _ _ _ _ _ _ Hwf Hloop)
      as (Hall & Hk & Hl); [done|].
    destruct losses' as [|l losses']; [done|]. injection Hb as _ _ <-.
    simpl in Hk, Hl.
    assert (Forall (fun x => length x = nb z * nt z) (map idata ixs')) as Hlen.
    { apply Forall_fmap. eapply Forall_impl; [exact Hall|]. by intros ? [? _]. }
    split_and!.
    + simpl. apply Forall_stack_last, Forall_fmap.
      eapply Forall_impl; [exact Hall|]. by intros ? [_ ?].
    + simpl. rewrite length_stack_last by done. rewrite length_map. lia.
    + done.
    + intros _. exists K. split_and!; [done|lia|]. simpl. by rewrite Hk.
  - pose proof (quantize_data q z _ _ _ Hwf Hb) as (_ & Hlen & Hlt & _).
    pose proof (quantize_inv q z _ _ _ Hb) as (_&_&_&_&_&_&_&->).
    simpl in *. split_and!; [done|lia|done|done].
Qed.

(** ** The methods on tensor objects *)

(** X5.  On tensor objects, with its in-place updates, [forward] returns a
    tensor that holds the value [forward] computes from the values of [z]
    and of the weight, with the same loss and the same indices, and it
    raises exactly when [forward] on values does. *)
Theorem forward_obj_computes_forward {T : Type} `{Scalar T}
    (q : Quantizer T) (lw : loc) (z : TensorRef) (s : store T)
    (zv wv : list T) :
  s !! ref_loc z = Some zv -> s !! lw = Some wv ->
  match forward (with_weight q (rows (embed_dim q) wv)) (value_of z zv) with
  | None => (forward_obj q lw z s).1 = None
  | Some (t, loss, ix) =>
      exists x,
        (forward_obj q lw z s).1 = Some (x, loss, ix) /\
        tensor_value (forward_obj q lw z s).2 x = Some t
  end.
Proof. intros Hz Hw. by apply run_forward_obj. Qed.

(** ** More on the constructors *)

(** X8.  [VectorQuantizer(embed_dim, n_embed)] raises for every
    [n_embed] that is not positive: [ZeroDivisionError] for [n_embed = 0],
    from [-1.0 / self.n_embed] on line 70, and the error of [nn.Embedding]
    for a negative one. *)
Theorem VectorQuantizer_init_rejects (embed_dim n_embed : Z)
    (beta use_norm use_residual num_quantizers : Py.pyval)
    (kwargs : list (string * Py.pyval)) :
  (0 <= embed_dim)%Z -> (n_embed <= 0)%Z ->
  Py.construct
    (Py.VectorQuantizer_init (Py.PyInt embed_dim) (Py.PyInt n_embed) beta
       use_norm use_residual num_quantizers kwargs)
  = inl (if bool_decide (n_embed = 0%Z) then Py.ZeroDivisionError
         else Py.RuntimeError).
Proof.
  intros Hd Hn.
  destruct n_embed as [|n|n]; try lia;
    destruct embed_dim as [|d|d]; try lia; vm_compute; reflexivity.
Qed.


(** ** NaN in the input *)

Section NaN.
Implicit Types (q : Quantizer f32) (r e : list f32) (x y : f32).

Lemma f32_add_nan_r x : SFadd 24 128 x S754_nan = S754_nan.
Proof. by destruct x. Qed.

Lemma f32_mul_nan_r x : SFmul 24 128 x S754_nan = S754_nan.
Proof. by destruct x. Qed.

Lemma fold_add_nan (l : list f32) :
  fold_left (SFadd 24 128) l S754_nan = S754_nan.
Proof. induction l as [|x l IH]; [done|]. simpl. exact IH. Qed.

Lemma tsum_nan (l : list f32) : S754_nan ∈ l -> tsum l = S754_nan.
Proof.
  unfold tsum. generalize (s_zero : f32). induction l as [|x l IH];
    intros acc Hin; [by apply not_elem_of_nil in Hin|].
  apply elem_of_cons in Hin as [<-|Hin]; simpl.
  - rewrite f32_add_nan_r. apply fold_add_nan.
  - by apply IH.
Qed.

Lemma sumsq_nan r : S754_nan ∈ r -> sumsq r = S754_nan.
Proof.
  intros Hin. unfold sumsq. apply tsum_nan.
  apply (list_elem_of_fmap_2' sq _ S754_nan); done.
Qed.

Lemma norm_nan q r : S754_nan ∈ r -> S754_nan ∈ norm q r.
Proof.
  intros Hin. unfold norm. destruct (use_norm q); [|done].
  unfold normalize. eapply list_elem_of_fmap_2'; [exact Hin|done].
Qed.

Lemma distances_nan (en : list (list f32)) r :
  S754_nan ∈ r -> Forall (fun d => d = S754_nan) (distances en r).
Proof.
  intros Hin. unfold distances. apply Forall_fmap, Forall_forall.
  intros e _. simpl. by rewrite (sumsq_nan r Hin).
Qed.

Lemma argmin_from_nan (l : list f32) (bi i : nat) :
  Forall (fun d => d = S754_nan) l -> argmin_from S754_nan bi i l = bi.
Proof.
  intros Hl. revert i. induction Hl as [|x l -> _ IH]; intros i; [done|].
  simpl. apply IH.
Qed.

Lemma f32_sub_nan_r x : SFsub 24 128 x S754_nan = S754_nan.
Proof. by destruct x. Qed.

Lemma vq_loss_nan q (zqn zn : list f32) :
  length zqn = length zn -> S754_nan ∈ zn -> vq_loss q zqn zn = S754_nan.
Proof.
  intros Hlen Hin.
  assert (S754_nan ∈ map sq (zip_with s_sub zqn zn)) as Hsq.
  { apply list_elem_of_lookup in Hin as [i Hi].
    destruct (lookup_lt_is_Some_2 zqn i) as [x Hx].
    { rewrite Hlen. by eapply lookup_lt_Some. }
    apply (list_elem_of_fmap_2' sq _ S754_nan); [|done].
    apply list_elem_of_lookup. exists i.
    rewrite lookup_zip_with, Hx. simpl. unfold f32 in *. rewrite Hi. simpl.
    by rewrite f32_sub_nan_r. }
  unfold vq_loss, tmean. by rewrite (tsum_nan _ Hsq).
Qed.

End NaN.

(** X10.  A NaN anywhere in an input row makes every entry of its row
    of [d] NaN, and [argmin] then returns 0: the row is quantized to
    codebook entry 0, whatever the codebook holds, and the loss of the
    call is NaN. *)
Theorem nan_row_selects_first (q : Quantizer f32) (z z_q : Tensor f32)
    (loss : f32) (ix : IndexTensor) (p : nat) (r : list f32) :
  wf_quantizer q ->
  quantize q z = Some (z_q, loss, ix) ->
  rows (embed_dim q) (data z) !! p = Some r ->
  S754_nan ∈ r ->
  Forall (fun d => d = S754_nan)
    (distances (map (norm q) (weight q)) (norm q r)) /\
  idata ix !! p = Some 0 /\
  loss = S754_nan.
Proof.
  intros Hwf Hq Hr Hin.
  destruct (quantize_index_row q z z_q loss ix p r Hq Hr) as [Hp Hne].
  pose proof (distances_nan (map (norm q) (weight q)) (norm q r)
                (norm_nan q r Hin)) as Hd.
  split; [done|]. split.
  - rewrite Hp. f_equal.
    destruct (distances _ _) as [|d ds]; [done|].
    apply Forall_cons in Hd as [-> Hds]. simpl. by apply argmin_from_nan.
  - pose proof (quantize_data q z z_q loss ix Hwf Hq)
      as (_ & Hlen & _ & Hc & Hz & _ & Hzq).
    pose proof (quantize_inv q z z_q loss ix Hq)
      as (HD & Hmod & _ & _ & _ & Hzq' & -> & _).
    assert (0 < nb z * nt z) as Hbt.
    { apply lookup_lt_Some in Hr. unfold rows in Hr.
      rewrite length_reshape, length_replicate in Hr.
      unfold wf_tensor, numel in Hz.
      destruct (decide (nb z * nt z = 0)) as [Hz0|]; [|lia].
      rewrite Hz, Hz0 in Hr. simpl in Hr.
      rewrite Nat.Div0.div_0_l in Hr. lia. }
    specialize (Hc Hbt).
    apply vq_loss_nan.
    + unfold wf_tensor in Hzq, Hz. rewrite Hzq.
      rewrite length_norm_last by (by rewrite Hc).
      rewrite Hz. unfold numel. by rewrite Hzq'.
    + unfold norm_last. rewrite Hc. apply list_elem_of_join.
      exists (norm q r). split; [by apply norm_nan|].
      apply list_elem_of_fmap_2. by eapply list_elem_of_lookup_2.
Qed.

(** ** Residual quantization in exact arithmetic *)

Section ResidualExact.
Implicit Types (q : Quantizer R) (z r : Tensor R).

Lemma zip_sub_add (a b c : list R) :
  length b = length a -> length c = length a ->
  zip_with Rplus (zip_with Rminus a b) (zip_with Rplus c b)
  = zip_with Rplus a c.
Proof.
  revert b c. induction a as [|x a IH]; intros [|y b] [|w c] Hb Hc;
    try done.
  injection Hb as Hb. injection Hc as Hc. simpl.
  rewrite IH by done. f_equal. lra.
Qed.

Lemma zip_add_zeros_r (a : list R) (n : nat) :
  length a = n -> zip_with Rplus a (replicate n 0%R) = a.
Proof.
  intros <-. induction a as [|x a IH]; [done|]. simpl.
  rewrite IH. f_equal. lra.
Qed.

Lemma zip_add_zeros_l (a : list R) (n : nat) :
  length a = n -> zip_with Rplus (replicate n 0%R) a = a.
Proof.
  intros <-. induction a as [|x a IH]; [done|]. simpl.
  rewrite IH. f_equal. lra.
Qed.

(** The loop keeps the sum of the residual and of the accumulator. *)
Lemma residual_loop_sum q (k : nat) :
  forall r acc losses ixs r' acc' losses' ixs',
    wf_quantizer q ->
    residual_loop q k r acc losses ixs = Some (r', acc', losses', ixs') ->
    length (data acc) = length (data r) ->
    zip_with Rplus (data r') (data acc')
      = zip_with Rplus (data r) (data acc) /\
    same_shape r' r.
Proof.
  induction k as [|k IH];
    intros r acc losses ixs r' acc' losses' ixs' Hwf Hloop Hlen.
  - simpl in Hloop. injection Hloop as <- <- <- <-. done.
  - simpl in Hloop.
    destruct (quantize q r) as [[[q_1 l_1] i_1]|] eqn:Hq; [|done].
    destruct (quantize_data q r q_1 l_1 i_1 Hwf Hq)
      as (_ & _ & _ & _ & Hr & Hs1 & Hq1).
    unfold wf_tensor in Hr, Hq1.
    assert (length (data q_1) = length (data r)) as Hlen1.
    { rewrite Hr, Hq1. unfold numel. destruct Hs1 as (-> & -> & ->). done. }
    apply IH in Hloop as [Hsum Hs]; [|done|].
    + split; [|done]. rewrite Hsum. simpl. by apply zip_sub_add.
    + simpl. rewrite !length_zip_with. lia.
Qed.

End ResidualExact.

(** X11.  In exact arithmetic, residual quantization decomposes its input:
    after the [num_quantizers] stages, the last residual and the quantized
    tensor [forward] returns add up to [z]. *)
Theorem residual_decomposition (q : Quantizer R) (z : Tensor R) (K : Z) :
  wf_quantizer q -> fits q z -> 0 < embed_dim q -> 0 < n_embed q ->
  use_residual q = true -> num_quantizers q = Some K -> (0 < K)%Z ->
  exists r z_q loss ix,
    residual_after q z (Z.to_nat K) = Some r /\
    forward q z = Some (z_q, loss, ix) /\
    tadd r z_q = z.
Proof.
  intros Hwf Hz HD HN Hres HK Hpos.
  destruct (residual_loop_stages q (Z.to_nat K) z (tzeros_like z) [] []
              Hwf Hz HD HN) as (outs & r & Hk & _ & _ & Hr & Hloop).
  destruct (residual_loop_sum q _ _ _ _ _ _ _ _ _ Hwf Hloop)
    as [Hsum Hs]; [simpl; by rewrite length_replicate|].
  assert (forward_branches q z =
          Some (fold_left tadd outs.*1.*1 (tzeros_like z),
                tmean ([] ++ outs.*1.*2),
                stack_indices (nb z) (nt z) ([] ++ outs.*2))) as Hb.
  { unfold forward_branches. rewrite Hres, HK. simpl. rewrite Hloop.
    destruct outs as [|o outs]; [simpl in Hk; lia|]. done. }
  destruct (forward_branches_shape q z _ _ _ Hwf Hb) as [Hsh Hlen].
  exists r. eexists _, _, _. split; [done|]. split.
  - unfold forward. rewrite Hb.
    replace (if straight_through q
             then straight_through_estimator z
                    (fold_left tadd outs.*1.*1 (tzeros_like z))
             else fold_left tadd outs.*1.*1 (tzeros_like z))
      with (fold_left tadd outs.*1.*1 (tzeros_like z)); [done|].
    destruct (straight_through q); [|done].
    by rewrite straight_through_estimator_exact.
  - unfold tadd at 1. change (@s_add R R_scalar) with Rplus.
    rewrite Hsum. simpl. rewrite zip_add_zeros_r by done.
    destruct Hs as (-> & -> & ->). by destruct z.
Qed.

(** X18.  In exact arithmetic, residual mode with one quantizer is the
    plain quantizer: [forward] raises on the same inputs and returns the
    same quantized tensor and loss, and the same indices with a last
    dimension of size one added. *)
Theorem residual_one_stage (q : Quantizer R) (z : Tensor R) :
  wf_quantizer q ->
  forward (set_residual true (Some 1%Z) q) z =
  match forward (set_residual false None q) z with
  | None => None
  | Some (z_q, loss, ix) =>
      Some (z_q, loss, mkIndex (ishape ix ++ [1]) (idata ix))
  end.
Proof.
  intros Hwf. unfold forward, forward_branches. simpl.
  change (quantize (set_residual true (Some 1%Z) q) z) with (quantize q z).
  change (quantize (set_residual false None q) z) with (quantize q z).
  destruct (quantize q z) as [[[q_1 l_1] i_1]|] eqn:Hq; [|done].
  destruct (quantize_data q z q_1 l_1 i_1 Hwf Hq)
    as (_ & Hlen & _ & _ & Hz & Hs & Hq1).
  pose proof (quantize_inv q z q_1 l_1 i_1 Hq) as (_&_&_&_&_&_&_&Hi).
  assert (tadd (tzeros_like z) q_1 = q_1) as ->.
  { unfold tadd. simpl. unfold wf_tensor in Hz, Hq1.
    rewrite zip_add_zeros_l.
    - destruct Hs as (Hb & Ht & Hc). rewrite <-Hb, <-Ht, <-Hc.
      by destruct q_1.
    - rewrite Hz, Hq1. unfold numel. destruct Hs as (-> & -> & ->). done. }
  assert ((tsum [l_1] / INR (length [l_1]))%R = l_1) as ->.
  { unfold tsum. simpl. field. }
  assert (stack_indices (nb z) (nt z) [i_1]
          = mkIndex (ishape i_1 ++ [1]) (idata i_1)) as ->.
  { unfold stack_indices. simpl. rewrite Hi. simpl. f_equal.
    rewrite Hi in Hlen. simpl in Hlen. unfold stack_last. simpl.
    rewrite <-Hlen. generalize (indices_of q z). intros l.
    apply list_eq. intros p. destruct (decide (p < length l)) as [Hp|Hp].
    - rewrite <-(Nat.add_0_r p) at 1. rewrite <-(Nat.mul_1_r p) at 1.
      apply lookup_lt_is_Some_2 in Hp as [v Hv]. rewrite Hv.
      apply (join_lookup_Some_same_length' 1); [|lia|].
      + apply Forall_fmap, Forall_forall. intros p' Hp'. simpl.
        apply elem_of_seq in Hp'.
        destruct (lookup_lt_is_Some_2 l p') as [v' ->]; [lia|]. done.
      + exists [v]. rewrite list_lookup_fmap, lookup_seq_lt.
        * simpl. by rewrite Hv.
        * by eapply lookup_lt_Some.
    - rewrite (lookup_ge_None_2 l p) by lia. apply lookup_ge_None_2.
      rewrite (length_join_same 1).
      + rewrite length_map, length_seq. lia.
      + apply Forall_fmap, Forall_forall. intros p' Hp'. simpl.
        apply elem_of_seq in Hp'.
        destruct (lookup_lt_is_Some_2 l p') as [v' ->]; [lia|]. done. }
  done.
Qed.

(** ** The loss and the normalisation in exact arithmetic *)

Section LossExact.
Implicit Types (q : Quantizer R) (z : Tensor R) (r e : list R).


Lemma sumsq_map_mul (c : R) r :
  sumsq (map (Rmult c) r) = (c * c * sumsq r)%R.
Proof.
  induction r as [|x r IH].
  - unfold sumsq, tsum. simpl. lra.
  - simpl. rewrite !sumsq_cons, IH. lra.
Qed.

(** A row that is long enough and a multiple of it by [c >= 1] have the
    same normalisation. *)
Lemma normalize_scale (c : R) r :
  (1 <= c)%R -> (s_eps <= sqrt (sumsq r))%R ->
  normalize (map (Rmult c) r) = normalize r.
Proof.
  intros Hc Hn.
  assert (0 < s_eps)%R as Heps.
  { simpl. apply Rinv_0_lt_compat. lra. }
  pose proof (sumsq_nonneg r) as Hnn.
  assert (sqrt (sumsq (map (Rmult c) r)) = (c * sqrt (sumsq r))%R) as Hsq.
  { rewrite sumsq_map_mul.
    rewrite sqrt_mult by nra. rewrite sqrt_square by lra. done. }
  unfold normalize, clamp_min. simpl s_sqrt. rewrite Hsq.
  replace (s_lt (c * sqrt (sumsq r))%R s_eps) with false
    by (symmetry; apply Rltb_false; simpl in *; nra).
  replace (s_lt (sqrt (sumsq r)) s_eps) with false
    by (symmetry; by apply Rltb_false).
  rewrite map_map. apply map_ext. intros x. simpl. field.
  simpl in *. split; lra.
Qed.

Lemma reshape_fmap {A B : Type} (f : A -> B) (n d : nat) (l : list A) :
  reshape (replicate n d) (f <$> l)
  = (fmap (M:=list) f) <$> reshape (replicate n d) l.
Proof.
  revert l. induction n as [|n IH]; intros l; simpl; [done|].
  by rewrite <-fmap_take, <-fmap_drop, IH.
Qed.

Lemma norm_last_scale q (c : R) (d : nat) (l : list R) :
  use_norm q = true -> (1 <= c)%R ->
  Forall (fun r => (s_eps <= sqrt (sumsq r))%R) (rows d l) ->
  map (norm q) (rows d (map (Rmult c) l)) = map (norm q) (rows d l).
Proof.
  intros Hnorm Hc Hall. unfold rows in *. rewrite length_map.
  change (map (Rmult c) l) with (Rmult c <$> l). rewrite reshape_fmap.
  change map with (@fmap list _). rewrite <-list_fmap_compose.
  apply Forall_fmap_ext_1. eapply Forall_impl; [exact Hall|].
  intros r Hr. simpl. unfold norm. rewrite Hnorm.
  by apply normalize_scale.
Qed.

End LossExact.


(** X13.  In exact arithmetic, with [use_norm], [quantize] sees the
    direction of its input rows only: when every row has a norm of at least
    [eps], scaling the input by [c >= 1] changes neither the quantized
    tensor nor the loss nor the indices. *)
Theorem quantize_scale_invariant (q : Quantizer R) (z : Tensor R) (c : R) :
  use_norm q = true -> fits q z -> (1 <= c)%R ->
  Forall (fun r => (s_eps <= sqrt (sumsq r))%R)
    (rows (embed_dim q) (data z)) ->
  quantize q (tscale c z) = quantize q z.
Proof.
  intros Hnorm [_ Hc] Hc1 Hall.
  unfold quantize, tscale, numel, norm_last. cbn [nb nt nc data].
  rewrite length_map, !Hc.
  change (map (s_mul c) (data z)) with (map (Rmult c) (data z)).
  by rewrite (norm_last_scale q c (embed_dim q)) by done.
Qed.

(** ** Quantizing a quantized tensor, in exact arithmetic *)

Section IdempotenceExact.
Implicit Types (q : Quantizer R) (z : Tensor R) (r e : list R).






End IdempotenceExact.


(** ** [GumbelQuantizer.quantize] *)

(** X15.  Whenever [GumbelQuantizer.quantize] returns, its batch is not
    empty, the quantized tensor has shape [(b, t, embed_dim)] and that many
    elements, and the index tensor has shape [(b, t)] and [b * t] entries;
    on an empty batch the method raises. *)
Theorem gumbel_quantize_shape {T : Type} `{Scalar T}
    (gumbel_softmax : T -> bool -> list (list T) -> list (list T))
    (softmax : list T -> list T) (log : T -> T) (c_1e_10 : T)
    (q : Quantizer T) (training : bool) (temperature kl_weight : T)
    (temp : option T) (z z_q : Tensor T) (loss : T) (ix : IndexTensor) :
  keeps_shape gumbel_softmax -> wf_quantizer q ->
  gumbel_quantize gumbel_softmax softmax log c_1e_10
    q training temperature kl_weight temp z = Some (z_q, loss, ix) ->
  0 < nb z * nt z /\
  nb z_q = nb z /\ nt z_q = nt z /\ nc z_q = embed_dim q /\
  wf_tensor z_q /\
  ishape ix = [nb z; nt z] /\ length (idata ix) = nb z * nt z.
Proof.
  intros Hshape Hwf Hq.
  destruct (gumbel_quantize_inv _ _ _ _ _ _ _ _ _ _ _ _ _ Hshape Hwf Hq)
    as (N & soh & Hbt & _ & _ & _ & _ & Hlen & _ & _ & -> & ->).
  simpl. split_and!; try done.
  - unfold wf_tensor, numel. simpl.
    rewrite (length_join_same (embed_dim q)).
    + by rewrite length_map, Hlen.
    + apply Forall_fmap, Forall_forall. intros r _. simpl.
      by rewrite length_map, length_columns.
  - by rewrite length_map.
Qed.

(** X17.  On an input of shape [(b, t, embed_dim)],
    [GumbelQuantizer.quantize] returns exactly when [embed_dim] is
    positive, the codebook is not empty and the batch is not empty; unlike
    [VectorQuantizer.quantize] it raises on an empty batch. *)
Theorem gumbel_quantize_returns_iff {T : Type} `{Scalar T}
    (gumbel_softmax : T -> bool -> list (list T) -> list (list T))
    (softmax : list T -> list T) (log : T -> T) (c_1e_10 : T)
    (q : Quantizer T) (training : bool) (temperature kl_weight : T)
    (temp : option T) (z : Tensor T) :
  wf_quantizer q -> fits q z ->
  (is_Some (gumbel_quantize gumbel_softmax softmax log c_1e_10
              q training temperature kl_weight temp z) <->
   0 < embed_dim q /\ 0 < n_embed q /\ 0 < nb z * nt z).
Proof.
  intros Hwf Hz. split.
  - destruct Hwf as [Hn _]. unfold gumbel_quantize. cbv zeta.
    rewrite length_logits, length_map, Hn.
    set (L := length (data z) / embed_dim q * n_embed q).
    set (N := L / (nb z * nt z)).
    set (K := if bool_decide (N = 1) then n_embed q else N).
    repeat case_bool_decide; try (by intros [? ?]). intros _.
    split_and!; [lia| |lia].
    destruct (n_embed q) as [|n]; [|lia]. exfalso.
    subst N L. rewrite Nat.mul_0_r, Nat.Div0.div_0_l in *. lia.
  - intros (HD & HN & Hbt). by apply gumbel_quantize_returns.
Qed.

Section GumbelHard.
Implicit Types (q : Quantizer R) (z : Tensor R) (r e : list R).

Lemma one_hot_row_app (n k : nat) :
  k < n ->
  one_hot_row n k = replicate k 0%R ++ 1%R :: replicate (n - S k) 0%R.
Proof.
  intros Hk. unfold one_hot_row.
  replace n with (k + S (n - S k)) at 1 by lia.
  rewrite replicate_add. simpl.
  rewrite insert_app_r_alt by (rewrite length_replicate; lia).
  rewrite length_replicate, Nat.sub_diag. done.
Qed.

Lemma argmax_from_zeros (m : nat) : forall (best : R) bi i (l : list R),
  (0 <= best)%R ->
  argmax_from best bi i (replicate m 0%R ++ l) = argmax_from best bi (i + m) l.
Proof.
  induction m as [|m IH]; intros best bi i l Hbest; simpl.
  - by rewrite Nat.add_0_r.
  - replace (more 0%R best) with false.
    + rewrite IH by done. f_equal. lia.
    + symmetry. unfold more. simpl. apply Rltb_false. lra.
Qed.

Lemma argmax_from_zeros_only (m : nat) (best : R) (bi i : nat) :
  (0 <= best)%R -> argmax_from best bi i (replicate m 0%R) = bi.
Proof.
  intros Hbest. rewrite <-(app_nil_r (replicate m 0%R)).
  by rewrite argmax_from_zeros.
Qed.

(** [argmax] finds the one of a one-hot row. *)
Lemma argmax_one_hot (n k : nat) : k < n -> argmax (one_hot_row n k) = k.
Proof.
  intros Hk. rewrite one_hot_row_app by done. destruct k as [|k]; simpl.
  - apply argmax_from_zeros_only. lra.
  - rewrite argmax_from_zeros by lra. simpl.
    replace (more 1%R 0%R) with true.
    + rewrite argmax_from_zeros_only by lra. lia.
    + symmetry. unfold more. simpl. apply Rltb_true. lra.
Qed.

Lemma dot_zeros (m : nat) (l : list R) : dot (replicate m 0%R) l = 0%R.
Proof.
  unfold dot. revert l. induction m as [|m IH]; intros [|y l];
    try (unfold tsum; simpl; lra).
  cbn [zip_with replicate]. rewrite tsum_cons, IH. simpl. lra.
Qed.

(** The product of a one-hot row and a column is an entry of the
    column. *)
Lemma dot_one_hot (n k : nat) (col : list R) :
  k < n -> length col = n ->
  dot (one_hot_row n k) col = default 0%R (col !! k).
Proof.
  intros Hk Hlen. rewrite one_hot_row_app by done. subst n.
  revert k Hk. induction col as [|x col IH]; intros k Hk; simpl in Hk;
    [lia|].
  destruct k as [|k].
  - pose proof (dot_zeros (length (x :: col) - 1) col) as Hz.
    unfold dot in *. cbn [zip_with app replicate]. rewrite tsum_cons, Hz.
    simpl. lra.
  - specialize (IH k ltac:(lia)).
    unfold dot in *. cbn [zip_with app replicate]. rewrite tsum_cons.
    change (length (x :: col) - S (S k)) with (length col - S k).
    rewrite IH. simpl. lra.
Qed.

Lemma map_lookup_seq (l : list R) :
  map (fun j => default 0%R (l !! j)) (seq 0 (length l)) = l.
Proof.
  apply list_eq. intros j. change map with (@fmap list _).
  rewrite list_lookup_fmap.
  destruct (decide (j < length l)) as [Hj|Hj].
  - rewrite lookup_seq_lt by done. simpl.
    by destruct (lookup_lt_is_Some_2 l j Hj) as [v ->].
  - rewrite lookup_seq_ge by lia. simpl.
    by rewrite lookup_ge_None_2 by lia.
Qed.

(** A one-hot row times the codebook is a row of the codebook. *)
Lemma one_hot_times_codebook (d n k : nat) (en : list (list R)) e :
  k < n -> length en = n -> Forall (fun r => length r = d) en ->
  en !! k = Some e ->
  map (dot (one_hot_row n k)) (columns d en) = e.
Proof.
  intros Hk Hlen Hall He.
  assert (length e = d) as Hle by (by apply (Forall_lookup_1 _ _ _ _ Hall He)).
  rewrite <-(map_lookup_seq e), Hle. unfold columns. rewrite map_map.
  apply map_ext. intros j.
  rewrite dot_one_hot by (by rewrite ?length_map).
  change map with (@fmap list _). rewrite list_lookup_fmap, He. done.
Qed.

End GumbelHard.

(** X16.  In exact arithmetic and in evaluation mode, where
    [F.gumbel_softmax] is called with [hard=True] and returns one-hot rows,
    [GumbelQuantizer.quantize] on an input of shape [(b, t, embed_dim)]
    returns at each position [(i, j)] the normalised codebook row that the
    index at [(i, j)] selects. *)
Theorem gumbel_quantize_hard
    (gumbel_softmax : R -> bool -> list (list R) -> list (list R))
    (softmax : list R -> list R) (log : R -> R) (c_1e_10 : R)
    (q : Quantizer R) (temperature kl_weight : R) (temp : option R)
    (z z_q : Tensor R) (loss : R) (ix : IndexTensor) :
  keeps_shape gumbel_softmax -> hard_one_hot gumbel_softmax ->
  wf_quantizer q -> fits q z ->
  gumbel_quantize gumbel_softmax softmax log c_1e_10
    q false temperature kl_weight temp z = Some (z_q, loss, ix) ->
  forall i j, i < nb z -> j < nt z ->
    exists k e,
      index_at (nt z) ix i j = Some k /\ k < n_embed q /\
      weight q !! k = Some e /\ vec_at z_q i j = norm q e.
Proof.
  intros Hshape Hhard Hwf Hz Hq i j Hi Hj.
  destruct (gumbel_quantize_inv _ _ _ _ _ _ _ _ _ _ _ _ _ Hshape Hwf Hq)
    as (N & soh & Hbt & _ & HN & _ & Hfits & Hlen & Hrows
        & (logits & Hsoh) & -> & ->).
  pose proof (Hfits Hz) as ->.
  assert ((if bool_decide (n_embed q = 1) then n_embed q else n_embed q)
          = n_embed q) as HK by (by case_bool_decide).
  rewrite HK.
  pose proof (flat_position _ _ _ _ Hi Hj) as Hp.
  destruct (lookup_lt_is_Some_2 soh (i * nt z + j)) as [r Hr]; [lia|].
  pose proof (Forall_lookup_1 _ _ _ _ Hrows Hr) as Hlr. simpl in Hlr.
  pose proof (Hhard (default temperature temp) logits) as Hone.
  simpl in Hsoh. rewrite <-Hsoh in Hone.
  destruct (Forall_lookup_1 _ _ _ _ Hone Hr) as (k & Hk & Hrk).
  { intros ->. simpl in Hlr. lia. }
  rewrite Hlr in Hk, Hrk.
  pose proof Hwf as [Hn Hw].
  destruct (lookup_lt_is_Some_2 (weight q) k) as [e He]; [lia|].
  exists k, e. split_and!; [|done|done|].
  - unfold index_at. simpl. change map with (@fmap list _).
    rewrite list_lookup_fmap, Hr. simpl. f_equal.
    rewrite Hrk. by apply argmax_one_hot.
  - unfold vec_at. simpl. apply take_drop_join.
    + apply Forall_fmap, Forall_forall. intros r' _. simpl.
      by rewrite length_map, length_columns.
    + change map with (@fmap list _) at 1. rewrite list_lookup_fmap, Hr.
      simpl. f_equal. rewrite !expand_same, Hrk.
      apply (one_hot_times_codebook (embed_dim q) (n_embed q)).
      * done.
      * by rewrite length_map.
      * by apply Forall_length_map_norm.
      * change map with (@fmap list _). by rewrite list_lookup_fmap, He.
Qed.

(** ** The further properties at the example quantizers *)

Lemma quantize_returns_iff_witness :
  is_Some (quantize Examples.vq_2 Examples.z_2) <->
  0 < 2 /\ 0 < 2 /\ (1 * 2 = 0 \/ 2 = 2).
Proof.
  apply (quantize_returns_iff Examples.vq_2 Examples.z_2).
  - exact wf_vq_2.
  - reflexivity.
Defined.

Lemma quantize_empty_batch_witness :
  quantize Examples.vq_2 Examples2.z_empty =
    Some (mkTensor 0 3 2 [], S754_nan, mkIndex [0; 3] []).
Proof.
  apply (quantize_empty_batch Examples.vq_2 Examples2.z_empty).
  - exact wf_vq_2.
  - reflexivity.
  - simpl. lia.
  - simpl. lia.
  - reflexivity.
Defined.

Lemma forward_residual_misconfigured_witness :
  forward Examples2.vq_2_unset Examples.z_2 = None.
Proof.
  apply (forward_residual_misconfigured Examples2.vq_2_unset Examples.z_2).
  - reflexivity.
  - left. reflexivity.
Defined.

Lemma forward_indices_witness :
  exists z_q loss ix,
    forward Examples.vq_2_residual Examples.z_2 = Some (z_q, loss, ix) /\
    Forall (fun i => i < 2) (idata ix) /\
    length (idata ix) = shape_numel (ishape ix) /\
    (true = false -> ishape ix = [1; 2]) /\
    (true = true ->
     exists K, Some 2%Z = Some K /\ (0 < K)%Z /\
               ishape ix = [1; 2; Z.to_nat K]).
Proof.
  destruct (forward Examples.vq_2_residual Examples.z_2)
    as [[[z_q loss] ix]|] eqn:Hf; [|vm_compute in Hf; discriminate].
  exists z_q, loss, ix. split; [reflexivity|].
  apply (forward_indices Examples.vq_2_residual Examples.z_2 z_q loss ix).
  - exact wf_vq_2_residual.
  - exact Hf.
Defined.

Lemma forward_obj_computes_forward_witness :
  match forward (with_weight Examples.vq_2_residual
                   (rows 2 [Examples.f_0_5; Examples.f_0_25;
                            Examples.f_m0_3; Examples.f_1]))
          (value_of Examples.z_ref (data Examples.z_2)) with
  | None =>
      (forward_obj Examples.vq_2_residual 1 Examples.z_ref
         Examples.memory).1 = None
  | Some (t, loss, ix) =>
      exists x,
        (forward_obj Examples.vq_2_residual 1 Examples.z_ref
           Examples.memory).1 = Some (x, loss, ix) /\
        tensor_value
          (forward_obj Examples.vq_2_residual 1 Examples.z_ref
             Examples.memory).2 x = Some t
  end.
Proof.
  apply (forward_obj_computes_forward Examples.vq_2_residual 1
           Examples.z_ref Examples.memory (data Examples.z_2)
           [Examples.f_0_5; Examples.f_0_25; Examples.f_m0_3; Examples.f_1]).
  - reflexivity.
  - reflexivity.
Defined.

Lemma VectorQuantizer_init_returns_witness :
  exists self,
    Py.construct
      (Py.VectorQuantizer_init (Py.PyInt 4) (Py.PyInt 8) (Py.PyFloat 25 (-2))
         (Py.PyBool true) (Py.PyBool false) Py.PyNone
         [("straight_through"%string, Py.PyBool false)]) = inr self /\
    self !! "straight_through"%string = Some (Py.PyBool true) /\
    self !! "n_embed"%string = Some (Py.PyInt 8) /\
    self !! "embed_dim"%string = Some (Py.PyInt 4).
Proof.
  apply (VectorQuantizer_init_returns 4 8 (Py.PyFloat 25 (-2))
           (Py.PyBool true) (Py.PyBool false) Py.PyNone
           [("straight_through"%string, Py.PyBool false)]).
  - lia.
  - lia.
Defined.

Lemma VectorQuantizer_init_rejects_witness :
  Py.construct
    (Py.VectorQuantizer_init (Py.PyInt 4) (Py.PyInt 0) (Py.PyFloat 25 (-2))
       (Py.PyBool true) (Py.PyBool false) Py.PyNone [])
  = inl Py.ZeroDivisionError.
Proof.
  apply (VectorQuantizer_init_rejects 4 0 (Py.PyFloat 25 (-2))
           (Py.PyBool true) (Py.PyBool false) Py.PyNone []).
  - lia.
  - lia.
Defined.

Lemma nan_row_selects_first_witness :
  exists z_q loss ix,
    quantize Examples.vq_2 Examples2.z_nan = Some (z_q, loss, ix) /\
    Forall (fun d => d = S754_nan)
      (distances (map (norm Examples.vq_2) (weight Examples.vq_2))
         (norm Examples.vq_2 [Examples.f_1; S754_nan])) /\
    idata ix !! 0 = Some 0 /\
    loss = S754_nan.
Proof.
  destruct (quantize Examples.vq_2 Examples2.z_nan)
    as [[[z_q loss] ix]|] eqn:Hq; [|vm_compute in Hq; discriminate].
  exists z_q, loss, ix. split; [reflexivity|].
  apply (nan_row_selects_first Examples.vq_2 Examples2.z_nan z_q loss ix 0
           [Examples.f_1; S754_nan]).
  - exact wf_vq_2.
  - exact Hq.
  - reflexivity.
  - apply list_elem_of_further, list_elem_of_here.
Defined.

Section ExactWitnesses.
Import Examples.

Lemma wf_vq_exact_residual : wf_quantizer vq_exact_residual.
Proof. split; [reflexivity|repeat constructor]. Defined.

Lemma eps_le_sqrt (x : R) : (1 <= x)%R -> (s_eps <= sqrt x)%R.
Proof.
  intros Hx. apply Rle_trans with 1%R.
  - simpl. rewrite <-Rinv_1 at 2. apply Rinv_le_contravar; lra.
  - rewrite <-sqrt_1. apply sqrt_le_1_alt. done.
Defined.

Lemma sumsq_nil : sumsq (T:=R) [] = 0%R.
Proof. unfold sumsq, tsum. simpl. reflexivity. Defined.


Lemma z_exact_long :
  Forall (fun r => (s_eps <= sqrt (sumsq r))%R)
    (rows (embed_dim vq_exact) (data z_exact)).
Proof.
  change (rows (embed_dim vq_exact) (data z_exact))
    with [[1%R; 1%R]; [2%R; 0%R]].
  repeat (apply Forall_cons; split;
    [apply eps_le_sqrt; rewrite !sumsq_cons, sumsq_nil; lra|]).
  apply Forall_nil_2.
Defined.

End ExactWitnesses.

Lemma residual_decomposition_witness :
  exists r z_q loss ix,
    residual_after Examples.vq_exact_residual Examples.z_exact 2 = Some r /\
    forward Examples.vq_exact_residual Examples.z_exact
      = Some (z_q, loss, ix) /\
    tadd r z_q = Examples.z_exact.
Proof.
  apply (residual_decomposition Examples.vq_exact_residual
           Examples.z_exact 2).
  - exact wf_vq_exact_residual.
  - split; reflexivity.
  - simpl. lia.
  - simpl. lia.
  - reflexivity.
  - reflexivity.
  - lia.
Defined.


Lemma quantize_scale_invariant_witness :
  quantize Examples.vq_exact (tscale 2%R Examples.z_exact)
  = quantize Examples.vq_exact Examples.z_exact.
Proof.
  apply (quantize_scale_invariant Examples.vq_exact Examples.z_exact 2%R).
  - reflexivity.
  - exact fits_z_exact.
  - lra.
  - exact z_exact_long.
Defined.


Lemma residual_one_stage_witness :
  forward (set_residual true (Some 1%Z) Examples.vq_exact) Examples.z_exact =
  match forward (set_residual false None Examples.vq_exact) Examples.z_exact
  with
  | None => None
  | Some (z_q, loss, ix) =>
      Some (z_q, loss, mkIndex (ishape ix ++ [1]) (idata ix))
  end.
Proof.
  apply (residual_one_stage Examples.vq_exact Examples.z_exact).
  exact wf_vq_exact.
Defined.

Lemma gumbel_quantize_shape_witness :
  exists z_q loss ix,
    gumbel_quantize Examples2.hard_no_noise (fun r => r) (fun x => x)
      Examples.f_0_25 Examples.vq_2 false Examples.f_1 Examples.f_0_5 None
      Examples.z_2 = Some (z_q, loss, ix) /\
    0 < 1 * 2 /\
    nb z_q = 1 /\ nt z_q = 2 /\ nc z_q = 2 /\
    wf_tensor z_q /\
    ishape ix = [1; 2] /\ length (idata ix) = 1 * 2.
Proof.
  destruct (gumbel_quantize_returns Examples2.hard_no_noise (fun r => r)
              (fun x => x) Examples.f_0_25 Examples.vq_2 false Examples.f_1
              Examples.f_0_5 None Examples.z_2)
    as [[[z_q loss] ix] Hq];
    [exact wf_vq_2|apply fits_z_2; reflexivity
    |simpl; lia|simpl; lia|simpl; lia|].
  exists z_q, loss, ix. split; [exact Hq|].
  apply (gumbel_quantize_shape Examples2.hard_no_noise (fun r => r) (fun x => x)
           Examples.f_0_25 Examples.vq_2 false Examples.f_1 Examples.f_0_5
           None Examples.z_2 z_q loss ix).
  - exact hard_no_noise_keeps_shape.
  - exact wf_vq_2.
  - exact Hq.
Defined.

Lemma gumbel_quantize_returns_iff_witness :
  is_Some (gumbel_quantize Examples2.hard_no_noise (fun r => r) (fun x => x)
             Examples.f_0_25 Examples.vq_2 false Examples.f_1
             Examples.f_0_5 None Examples.z_2) <->
  0 < 2 /\ 0 < 2 /\ 0 < 1 * 2.
Proof.
  apply (gumbel_quantize_returns_iff Examples2.hard_no_noise (fun r => r)
           (fun x => x) Examples.f_0_25 Examples.vq_2 false Examples.f_1
           Examples.f_0_5 None Examples.z_2).
  - exact wf_vq_2.
  - apply fits_z_2. reflexivity.
Defined.

Lemma hard_argmax_keeps_shape : keeps_shape hard_argmax.
Proof.
  intros tau hard ls. unfold hard_argmax.
  induction ls as [|r ls IH]; simpl; constructor; [|exact IH].
  unfold one_hot_row. by rewrite length_insert, length_replicate.
Defined.

Lemma hard_argmax_one_hot : hard_one_hot hard_argmax.
Proof.
  intros tau ls. unfold hard_argmax.
  apply Forall_forall. intros r' Hin.
  change map with (@fmap list _) in Hin.
  apply list_elem_of_fmap in Hin as (r & -> & _). intros Hne.
  assert (length (one_hot_row (length r) (argmax r)) = length r) as Hlen.
  { unfold one_hot_row. by rewrite length_insert, length_replicate. }
  exists (argmax r). rewrite Hlen. split; [|reflexivity].
  apply argmax_lt. intros ->. by apply Hne.
Defined.

Lemma gumbel_quantize_hard_witness :
  exists z_q loss ix,
    gumbel_quantize hard_argmax (fun r => r) (fun x => x) 0%R
      Examples.vq_exact false 1%R 0%R None Examples.z_exact
      = Some (z_q, loss, ix) /\
    forall i j, i < 1 -> j < 2 ->
      exists k e,
        index_at 2 ix i j = Some k /\ k < 2 /\
        weight Examples.vq_exact !! k = Some e /\
        vec_at z_q i j = norm Examples.vq_exact e.
Proof.
  destruct (gumbel_quantize_returns hard_argmax (fun r => r) (fun x => x)
              0%R Examples.vq_exact false 1%R 0%R None Examples.z_exact)
    as [[[z_q loss] ix] Hq];
    [exact wf_vq_exact|exact fits_z_exact
    |simpl; lia|simpl; lia|simpl; lia|].
  exists z_q, loss, ix. split; [exact Hq|].
  apply (gumbel_quantize_hard hard_argmax (fun r => r) (fun x => x) 0%R
           Examples.vq_exact 1%R 0%R None Examples.z_exact z_q loss ix).
  - exact hard_argmax_keeps_shape.
  - exact hard_argmax_one_hot.
  - exact wf_vq_exact.
  - exact fits_z_exact.
  - exact Hq.
Defined.
